(** * Translation service: chapter translation with a content-hash cache

    A shallow embedding of [src/services/translation_service.py]
    (class [TranslationService]) and the properties of its cache protocol,
    its paragraph chunking and its preference store. *)

From Stdlib Require Import List Ascii String ZArith Lia Bool Arith.
Import ListNotations.

(** ** Python [str]

    A [str] is a sequence of characters; [len] counts characters, not bytes.
    The embedding keeps characters of the first 256 code points. *)

Module PyStr.

Definition str := list ascii.

(** A literal of the source. *)
Definition py (s : string) : str := list_ascii_of_string s.

Definition LF : ascii := ascii_of_nat 10.
Definition colon : ascii := ascii_of_nat 58.

Definition len (s : str) : nat := List.length s.

Fixpoint str_eqb (a b : str) : bool :=
  match a, b with
  | [], [] => true
  | x :: a', y :: b' => Ascii.eqb x y && str_eqb a' b'
  | _, _ => false
  end.

(** [s.startswith(p)] *)
Fixpoint startswith (p s : str) : bool :=
  match p, s with
  | [], _ => true
  | x :: p', y :: s' => Ascii.eqb x y && startswith p' s'
  | _ :: _, [] => false
  end.

(** [s.endswith(suffix)] *)
Definition endswith (s suffix : str) : bool :=
  startswith (rev suffix) (rev s).

(** [sep.join(parts)] *)
Fixpoint join (sep : str) (parts : list str) : str :=
  match parts with
  | [] => []
  | [p] => p
  | p :: rest => p ++ sep ++ join sep rest
  end.

(** [c.isspace()] on the first 256 code points: TAB..CR, FS..US, SPACE,
    NEL (0x85) and NBSP (0xA0). *)
Definition isspace (c : ascii) : bool :=
  let n := nat_of_ascii c in
  ((9 <=? n) && (n <=? 13)) || ((28 <=? n) && (n <=? 32))
  || (n =? 133) || (n =? 160).

(** [s.lstrip()], [s.rstrip()], [s.strip()] without argument: whitespace is
    removed from the ends only. *)
Fixpoint lstrip (s : str) : str :=
  match s with
  | [] => []
  | c :: s' => if isspace c then lstrip s' else s
  end.

Definition rstrip (s : str) : str := rev (lstrip (rev s)).

Definition strip (s : str) : str := lstrip (rstrip s).

(** Prepend a character to the piece under construction. *)
Definition push (c : ascii) (pieces : list str) : list str :=
  match pieces with
  | [] => [[c]]
  | p :: rest => (c :: p) :: rest
  end.

(** [s.split(sep)] for a non-empty [sep]: occurrences are taken left to
    right and do not overlap; [skip] counts the characters of a matched
    separator still to be passed over. *)
Fixpoint split_from (sep : str) (skip : nat) (s : str) : list str :=
  match s with
  | [] => [[]]
  | c :: s' =>
      match skip with
      | S k => split_from sep k s'
      | O =>
          if startswith sep s
          then [] :: split_from sep (len sep - 1) s'
          else push c (split_from sep 0 s')
      end
  end.

Definition split (sep s : str) : list str := split_from sep 0 s.

(** A truthy [str] is a non-empty one. *)
Definition truthy (s : str) : bool :=
  match s with [] => false | _ :: _ => true end.

End PyStr.
Import PyStr.

(** ** [hashlib.md5(content.encode('utf-8')).hexdigest()] *)

Module Hashlib.

Local Open Scope Z_scope.

(** [str.encode('utf-8')] on code points below 256: one byte below 128,
    two bytes otherwise. *)
Definition encode_char (c : ascii) : list Z :=
  let n := Z.of_nat (nat_of_ascii c) in
  if n <? 128 then [n]
  else [Z.lor 192 (Z.shiftr n 6); Z.lor 128 (Z.land n 63)].

Definition encode_utf8 (s : str) : list Z := flat_map encode_char s.

Definition w32 (x : Z) : Z := x mod 4294967296.

Definition rotl32 (x : Z) (n : Z) : Z :=
  w32 (Z.lor (Z.shiftl x n) (Z.shiftr (w32 x) (32 - n))).

Definition not32 (x : Z) : Z := Z.lxor (w32 x) 4294967295.

Definition K : list Z :=
  [3614090360; 3905402710; 606105819; 3250441966;
   4118548399; 1200080426; 2821735955; 4249261313;
   1770035416; 2336552879; 4294925233; 2304563134;
   1804603682; 4254626195; 2792965006; 1236535329;
   4129170786; 3225465664; 643717713; 3921069994;
   3593408605; 38016083; 3634488961; 3889429448;
   568446438; 3275163606; 4107603335; 1163531501;
   2850285829; 4243563512; 1735328473; 2368359562;
   4294588738; 2272392833; 1839030562; 4259657740;
   2763975236; 1272893353; 4139469664; 3200236656;
   681279174; 3936430074; 3572445317; 76029189;
   3654602809; 3873151461; 530742520; 3299628645;
   4096336452; 1126891415; 2878612391; 4237533241;
   1700485571; 2399980690; 4293915773; 2240044497;
   1873313359; 4264355552; 2734768916; 1309151649;
   4149444226; 3174756917; 718787259; 3951481745].

Definition shifts : list Z :=
  [7; 12; 17; 22; 7; 12; 17; 22; 7; 12; 17; 22; 7; 12; 17; 22;
   5; 9; 14; 20; 5; 9; 14; 20; 5; 9; 14; 20; 5; 9; 14; 20;
   4; 11; 16; 23; 4; 11; 16; 23; 4; 11; 16; 23; 4; 11; 16; 23;
   6; 10; 15; 21; 6; 10; 15; 21; 6; 10; 15; 21; 6; 10; 15; 21].

(** The padded message: 0x80, zeros up to 56 modulo 64, then the bit length
    as eight little-endian bytes. *)
Definition le_bytes (n : nat) (x : Z) : list Z :=
  map (fun i => Z.land (Z.shiftr x (8 * Z.of_nat i)) 255) (seq 0 n).

Definition pad (msg : list Z) : list Z :=
  let l := Z.of_nat (List.length msg) in
  let zeros := Z.to_nat ((55 - l) mod 64) in
  msg ++ [128] ++ repeat 0 zeros ++ le_bytes 8 ((8 * l) mod 18446744073709551616).

Definition le_word (b : list Z) : Z :=
  fold_right (fun x acc => x + 256 * acc) 0 b.

Fixpoint words (n : nat) (block : list Z) : list Z :=
  match n with
  | O => []
  | S n' => le_word (firstn 4 block) :: words n' (skipn 4 block)
  end.

Definition round (M : list Z) (st : Z * Z * Z * Z) (i : nat) : Z * Z * Z * Z :=
  let '(a, b, c, d) := st in
  let iz := Z.of_nat i in
  let '(f, g) :=
    if iz <? 16 then (Z.lor (Z.land b c) (Z.land (not32 b) d), iz)
    else if iz <? 32 then (Z.lor (Z.land d b) (Z.land (not32 d) c), (5 * iz + 1) mod 16)
    else if iz <? 48 then (Z.lxor (Z.lxor b c) d, (3 * iz + 5) mod 16)
    else (Z.lxor c (Z.lor b (not32 d)), (7 * iz) mod 16) in
  let f' := w32 (f + a + nth i K 0 + nth (Z.to_nat g) M 0) in
  (d, w32 (b + rotl32 f' (nth i shifts 0)), b, c).

Definition compress (st : Z * Z * Z * Z) (block : list Z) : Z * Z * Z * Z :=
  let M := words 16 block in
  let '(a, b, c, d) := st in
  let '(a', b', c', d') := fold_left (round M) (seq 0 64) st in
  (w32 (a + a'), w32 (b + b'), w32 (c + c'), w32 (d + d')).

Fixpoint blocks (n : nat) (msg : list Z) (st : Z * Z * Z * Z) : Z * Z * Z * Z :=
  match n with
  | O => st
  | S n' => blocks n' (skipn 64 msg) (compress st (firstn 64 msg))
  end.

Definition md5_state (msg : list Z) : Z * Z * Z * Z :=
  let p := pad msg in
  blocks (List.length p / 64) p (1732584193, 4023233417, 2562383102, 271733878).

Definition digest (msg : list Z) : list Z :=
  let '(a, b, c, d) := md5_state msg in
  le_bytes 4 a ++ le_bytes 4 b ++ le_bytes 4 c ++ le_bytes 4 d.

Definition hex_digit (x : Z) : ascii :=
  nth (Z.to_nat x) (py "0123456789abcdef") "0"%char.

Definition hex_byte (x : Z) : str := [hex_digit (x / 16); hex_digit (x mod 16)].

Definition hexdigest (msg : list Z) : str := flat_map hex_byte (digest msg).

Definition md5_hex (content : str) : str := hexdigest (encode_utf8 content).

End Hashlib.

(** ** Python [dict] with [str] keys

    A [dict] keeps its keys in insertion order, and [get_cache_stats]
    exposes that order, so a dictionary is the list of its items in
    insertion order. *)

Module Dict.
Section Dict.
Variable V : Type.

Definition dict := list (str * V).

Definition empty : dict := [].

(** [d.get(k)] *)
Fixpoint get (d : dict) (k : str) : option V :=
  match d with
  | [] => None
  | (k', v) :: rest => if str_eqb k' k then Some v else get rest k
  end.

(** [d[k] = v]: an existing key keeps its position, a new one goes last. *)
Fixpoint set (d : dict) (k : str) (v : V) : dict :=
  match d with
  | [] => [(k, v)]
  | (k', v') :: rest =>
      if str_eqb k' k then (k', v) :: rest else (k', v') :: set rest k v
  end.

(** [del d[k]] (only ever executed on a key that is present). *)
Definition del (d : dict) (k : str) : dict :=
  filter (fun kv => negb (str_eqb (fst kv) k)) d.

(** [d.keys()] *)
Definition keys (d : dict) : list str := map fst d.

Definition size (d : dict) : nat := List.length d.
End Dict.
Arguments get {V} d k.
Arguments set {V} d k v.
Arguments del {V} d k.
Arguments keys {V} d.
Arguments size {V} d.
End Dict.

(** ** [models.translation] *)

(** Modelled from the spec: the declaration of the enumeration
    [SupportedLanguage] (models/translation.py) is not among the sources.
    The service names its members [ENGLISH] and [URDU], compares members
    with [==], reads [language.value], and [get_cache_stats] matches keys
    on the value of [URDU]; the spec calls it a closed enumeration with at
    minimum English and Urdu.  The declaration is taken as a parameter. *)
Class LanguageEnum : Type := {
  SupportedLanguage : Type;
  ENGLISH : SupportedLanguage;
  URDU : SupportedLanguage;
  language_eqb : SupportedLanguage -> SupportedLanguage -> bool;
  language_eqb_spec : forall a b, reflect (a = b) (language_eqb a b);
  ENGLISH_neq_URDU : ENGLISH <> URDU;
  value : SupportedLanguage -> str;
  value_URDU : value URDU = py "urdu"
}.

(** [datetime.utcnow()] is read from the environment; a timestamp is an
    opaque number. *)
Definition datetime := Z.

(** Exceptions: what the provider raises, and the [RuntimeError] of the
    service.  [str_of_exn] is [str(e)]. *)
Inductive exn :=
| ProviderException (msg : str)
| RuntimeError (msg : str).

Definition str_of_exn (e : exn) : str :=
  match e with ProviderException m | RuntimeError m => m end.

Inductive outcome (A : Type) :=
| Return (a : A)
| Raise (e : exn).
Arguments Return {A} a.
Arguments Raise {A} e.

(** The provider, [GoogleTranslator(source='en', target=code).translate(text)],
    is an external collaborator: its answer may depend on the requests made
    before (rate limits) and it may raise. *)
Record Request := { req_target : str; req_text : str }.

Inductive reply :=
| Translated (text : str)
| Failed (reason : str).

Definition Provider := list Request -> Request -> reply.

Section Service.
Context {L : LanguageEnum}.

(** Modelled from the spec: the classes [ChapterTranslation],
    [TranslationResponse] and [UserTranslationPreference]
    (models/translation.py) are not among the sources; the fields are the
    keyword arguments the service constructs them with. *)
Record ChapterTranslation := {
  ct_chapter_id : str;
  ct_language : SupportedLanguage;
  original_content_hash : str;
  ct_translated_content : str;
  created_at : datetime;
  ct_updated_at : datetime
}.

Record TranslationResponse := {
  tr_chapter_id : str;
  tr_language : SupportedLanguage;
  translated_content : str;
  cached : bool;
  translated_at : datetime
}.

Record UserTranslationPreference := {
  session_id : str;
  up_chapter_id : str;
  preferred_language : SupportedLanguage;
  up_updated_at : datetime
}.

(** The state the methods run in: the two dictionaries of the service
    object and the requests sent to the provider so far (oldest first). *)
Record World := {
  _translation_cache : Dict.dict ChapterTranslation;
  _user_preferences : Dict.dict UserTranslationPreference;
  requests : list Request
}.

(** [TranslationService.__init__] *)
Definition init : World :=
  {| _translation_cache := Dict.empty _;
     _user_preferences := Dict.empty _;
     requests := [] |}.

(** Assignment to one attribute of the state. *)
Definition with_cache (w : World) (c : Dict.dict ChapterTranslation) : World :=
  {| _translation_cache := c;
     _user_preferences := _user_preferences w;
     requests := requests w |}.

Definition with_preferences (w : World) (p : Dict.dict UserTranslationPreference) : World :=
  {| _translation_cache := _translation_cache w;
     _user_preferences := p;
     requests := requests w |}.

Definition with_request (w : World) (r : Request) : World :=
  {| _translation_cache := _translation_cache w;
     _user_preferences := _user_preferences w;
     requests := requests w ++ [r] |}.

(** A method is a state transformer that returns or raises; what it did to
    the state before raising stays done. *)
Definition M (A : Type) : Type := World -> outcome A * World.

Definition ret {A} (a : A) : M A := fun w => (Return a, w).

Definition raise {A} (e : exn) : M A := fun w => (Raise e, w).

Definition bind {A B} (m : M A) (k : A -> M B) : M B :=
  fun w =>
    match m w with
    | (Return a, w') => k a w'
    | (Raise e, w') => (Raise e, w')
    end.

(** [try: m except Exception as e: h e] *)
Definition try_except {A} (m : M A) (h : exn -> M A) : M A :=
  fun w =>
    match m w with
    | (Return a, w') => (Return a, w')
    | (Raise e, w') => h e w'
    end.

Notation "x <- m ;; k" := (bind m (fun x => k))
  (at level 61, m at next level, right associativity).

Variable provider : Provider.

(** [translator.translate(text)] for a translator built with
    [target=lang_code]: one request to the provider. *)
Definition translate (lang_code text : str) : M str :=
  fun w =>
    let r := {| req_target := lang_code; req_text := text |} in
    let w' := with_request w r in
    match provider (requests w) r with
    | Translated t => (Return t, w')
    | Failed reason => (Raise (ProviderException reason), w')
    end.

(** [_compute_content_hash].  In the source [content.encode('utf-8')] raises
    [UnicodeEncodeError] on a [str] that holds a lone surrogate; the strings
    of this embedding hold no such character (see [PyStr]), so on them the
    hash is always computed.  No property below says that a call returns
    for every Python [str]. *)
Definition _compute_content_hash (content : str) : str :=
  Hashlib.md5_hex content.

(** [_get_cache_key]: [f"{chapter_id}:{language.value}"] *)
Definition _get_cache_key (chapter_id : str) (language : SupportedLanguage) : str :=
  chapter_id ++ py ":" ++ value language.

(** [get_cached_translation]; [content_hash] is [None] by default, and the
    test [if content_hash and ...] takes an empty hash as no hash.  An entry
    is an object, so [if cached:] holds exactly when the key is present. *)
Definition get_cached_translation (chapter_id : str) (language : SupportedLanguage)
    (content_hash : option str) : M (option ChapterTranslation) :=
  fun w =>
    let cache_key := _get_cache_key chapter_id language in
    match Dict.get (_translation_cache w) cache_key with
    | Some cached_entry =>
        let stale :=
          match content_hash with
          | Some h => truthy h && negb (str_eqb (original_content_hash cached_entry) h)
          | None => false
          end in
        if stale
        then (Return None, with_cache w (Dict.del (_translation_cache w) cache_key))
        else (Return (Some cached_entry), w)
    | None => (Return None, w)
    end.

Definition max_chunk_size : nat := 4500.

Definition paragraph_sep : str := [LF; LF].

(** The two places that translate a chunk: [if current_chunk.strip(): ...
    translated_parts.append(translated)]. *)
Definition flush (lang_code : str) (translated_parts : list str) (current_chunk : str)
    : M (list str) :=
  if truthy (strip current_chunk)
  then translated <- translate lang_code (strip current_chunk) ;;
       ret (translated_parts ++ [translated])
  else ret translated_parts.

(** [for para in paragraphs: ...] *)
Fixpoint chunk_loop (lang_code : str) (paragraphs : list str)
    (translated_parts : list str) (current_chunk : str) : M (list str * str) :=
  match paragraphs with
  | [] => ret (translated_parts, current_chunk)
  | para :: rest =>
      if len current_chunk + len para + 2 <=? max_chunk_size
      then chunk_loop lang_code rest translated_parts (current_chunk ++ para ++ paragraph_sep)
      else
        parts <- flush lang_code translated_parts current_chunk ;;
        chunk_loop lang_code rest parts (para ++ paragraph_sep)
  end.

(** [_translate_with_google] *)
Definition _translate_with_google (content : str) (target_language : SupportedLanguage)
    : M str :=
  if language_eqb target_language ENGLISH then ret content
  else
    let lang_code := if language_eqb target_language URDU then py "ur" else py "en" in
    try_except
      (if len content <=? max_chunk_size
       then translate lang_code content
       else
         let paragraphs := split paragraph_sep content in
         st <- chunk_loop lang_code paragraphs [] [] ;;
         parts <- flush lang_code (fst st) (snd st) ;;
         ret (join paragraph_sep parts))
      (fun e => raise (RuntimeError (py "Translation failed: " ++ str_of_exn e))).

(** [translate_chapter]; [now] is what [datetime.utcnow()] returns during
    the call and [latency_ms] the elapsed time it measures. *)
Definition translate_chapter (chapter_id content : str) (target_language : SupportedLanguage)
    (now : datetime) (latency_ms : Z) : M (TranslationResponse * Z) :=
  let content_hash := _compute_content_hash content in
  hit <- get_cached_translation chapter_id target_language (Some content_hash) ;;
  match hit with
  | Some cached_entry =>
      ret ({| tr_chapter_id := chapter_id;
              tr_language := target_language;
              translated_content := ct_translated_content cached_entry;
              cached := true;
              translated_at := ct_updated_at cached_entry |}, latency_ms)
  | None =>
      translated <- _translate_with_google content target_language ;;
      let translation :=
        {| ct_chapter_id := chapter_id;
           ct_language := target_language;
           original_content_hash := content_hash;
           ct_translated_content := translated;
           created_at := now;
           ct_updated_at := now |} in
      let cache_key := _get_cache_key chapter_id target_language in
      fun w =>
        (Return ({| tr_chapter_id := chapter_id;
                    tr_language := target_language;
                    translated_content := translated;
                    cached := false;
                    translated_at := now |}, latency_ms),
         with_cache w (Dict.set (_translation_cache w) cache_key translation))
  end.

(** [set_user_preference] *)
Definition set_user_preference (session chapter_id : str) (language : SupportedLanguage)
    (now : datetime) : M UserTranslationPreference :=
  fun w =>
    let pref_key := session ++ py ":" ++ chapter_id in
    let preference :=
      {| session_id := session;
         up_chapter_id := chapter_id;
         preferred_language := language;
         up_updated_at := now |} in
    (Return preference,
     with_preferences w (Dict.set (_user_preferences w) pref_key preference)).

(** [get_user_preference] *)
Definition get_user_preference (session chapter_id : str)
    : M (option UserTranslationPreference) :=
  fun w =>
    let pref_key := session ++ py ":" ++ chapter_id in
    (Return (Dict.get (_user_preferences w) pref_key), w).

(** [get_cache_stats] *)
Record CacheStats := {
  cached_translations : nat;
  user_preferences : nat;
  chapters_with_urdu : list str
}.

Definition get_cache_stats : M CacheStats :=
  fun w =>
    (Return
       {| cached_translations := Dict.size (_translation_cache w);
          user_preferences := Dict.size (_user_preferences w);
          chapters_with_urdu :=
            map (fun k => hd [] (split (py ":") k))
                (filter (fun k => endswith k (py ":urdu"))
                        (Dict.keys (_translation_cache w))) |},
     w).

End Service.

Arguments ChapterTranslation {L}.
Arguments TranslationResponse {L}.
Arguments UserTranslationPreference {L}.
Arguments World {L}.
Arguments M {L} A.

(** ** Concrete enumerations and providers *)

(** The enumeration with exactly the two members the service names. *)
Module TwoLanguages.
Inductive lang := English | Urdu.

Definition eqb (a b : lang) : bool :=
  match a, b with
  | English, English | Urdu, Urdu => true
  | _, _ => false
  end.

Definition val (l : lang) : str :=
  match l with English => py "english" | Urdu => py "urdu" end.

Definition enum : LanguageEnum :=
  {| SupportedLanguage := lang;
     ENGLISH := English;
     URDU := Urdu;
     language_eqb := eqb;
     language_eqb_spec :=
       ltac:(intros [] []; simpl; constructor; congruence);
     ENGLISH_neq_URDU := ltac:(discriminate);
     value := val;
     value_URDU := eq_refl |}.
End TwoLanguages.

(** Mock providers: one that translates character by character, one that
    is always down. *)
Definition mock (f : ascii -> ascii) : Provider :=
  fun _ r => Translated (map f (req_text r)).

Definition echo : Provider := mock (fun c => c).

Definition down : Provider := fun _ _ => Failed (py "503").

(** * Vocabulary of the properties *)

(** ** Strings and paragraphs *)

(** The part of a string before its first colon (the whole string when it
    has none). *)
Fixpoint before_colon (s : str) : str :=
  match s with
  | [] => []
  | c :: s' => if Ascii.eqb c colon then [] else c :: before_colon s'
  end.

(** The string ends with a line feed. *)
Fixpoint ends_lf (s : str) : bool :=
  match s with
  | [] => false
  | [c] => Ascii.eqb c LF
  | _ :: s' => ends_lf s'
  end.

(** The string holds no paragraph separator. *)
Definition no_sep (s : str) : Prop :=
  forall a b, s <> a ++ paragraph_sep ++ b.

(** The string holds a character that is not whitespace: [s.strip()] is
    truthy. *)
Definition nonblank (s : str) : bool := existsb (fun c => negb (isspace c)) s.

(** The number of paragraphs of a text. *)
Definition paragraph_count (s : str) : nat := List.length (split paragraph_sep s).

(** The chunk buffer after the paragraphs [g] were accumulated. *)
Definition chunk_of (g : list str) : str := flat_map (fun p => p ++ paragraph_sep) g.

(** Paragraphs as [split] yields them, none of them blank. *)
Definition well_formed (g : list str) : Prop :=
  Forall no_sep g
  /\ Forall (fun p => nonblank p = true) g
  /\ Forall (fun p => ends_lf p = false) (removelast g).

(** The paragraphs of a list of translated chunks, chunk by chunk. *)
Definition total (parts : list str) : nat := list_sum (map paragraph_count parts).

(** ** States and calls *)

Section Vocabulary.
Context {L : LanguageEnum}.

(** [w'] is [w] after some requests to the provider, all for [code], and
    nothing else. *)
Definition extends (code : str) (w w' : World) : Prop :=
  _translation_cache w' = _translation_cache w /\
  _user_preferences w' = _user_preferences w /\
  exists sent, requests w' = requests w ++ sent /\
               Forall (fun r => req_target r = code) sent.

(** A computation that only talks to the provider, and raises only what the
    provider raises. *)
Definition provider_only {A} (code : str) (m : M A) : Prop :=
  forall w o w', m w = (o, w') ->
    extends code w w' /\
    match o with
    | Return _ => True
    | Raise e => exists msg, e = ProviderException msg
    end.

(** The provider code of a target language. *)
Definition lang_code_of (target : SupportedLanguage) : str :=
  if language_eqb target URDU then py "ur" else py "en".

(** [TranslationFailed]: the [RuntimeError] that wraps a provider failure. *)
Definition TranslationFailed (e : exn) : Prop :=
  exists msg, e = RuntimeError (py "Translation failed: " ++ msg).

(** The entry that a lookup with the hash of [content] serves, if any. *)
Definition fresh_entry (w : World) (chapter_id content : str) (language : SupportedLanguage)
    : option ChapterTranslation :=
  match Dict.get (_translation_cache w) (_get_cache_key chapter_id language) with
  | Some c =>
      if str_eqb (original_content_hash c) (_compute_content_hash content)
      then Some c else None
  | None => None
  end.

(** The state after a lookup that misses: a stale entry is gone. *)
Definition evicted (w : World) (chapter_id : str) (language : SupportedLanguage) : World :=
  with_cache w (Dict.del (_translation_cache w) (_get_cache_key chapter_id language)).

(** What a miss stores and answers. *)
Definition stored_entry (chapter_id content : str) (language : SupportedLanguage)
    (translated : str) (now : datetime) : ChapterTranslation :=
  {| ct_chapter_id := chapter_id;
     ct_language := language;
     original_content_hash := _compute_content_hash content;
     ct_translated_content := translated;
     created_at := now;
     ct_updated_at := now |}.

Definition fresh_response (chapter_id : str) (language : SupportedLanguage)
    (translated : str) (now : datetime) : TranslationResponse :=
  {| tr_chapter_id := chapter_id;
     tr_language := language;
     translated_content := translated;
     cached := false;
     translated_at := now |}.

Definition cached_response (chapter_id : str) (language : SupportedLanguage)
    (c : ChapterTranslation) : TranslationResponse :=
  {| tr_chapter_id := chapter_id;
     tr_language := language;
     translated_content := ct_translated_content c;
     cached := true;
     translated_at := ct_updated_at c |}.

(** A call of [set_user_preference], and the state after a sequence of calls. *)
Record SetCall := {
  sc_session : str;
  sc_chapter : str;
  sc_language : SupportedLanguage;
  sc_now : datetime
}.

Fixpoint run_sets (calls : list SetCall) (w : World) : World :=
  match calls with
  | [] => w
  | c :: rest =>
      run_sets rest
        (snd (set_user_preference (sc_session c) (sc_chapter c) (sc_language c) (sc_now c) w))
  end.

(** The key of both preference methods, [f"{session_id}:{chapter_id}"]. *)
Definition pref_key (session chapter_id : str) : str :=
  session ++ py ":" ++ chapter_id.

End Vocabulary.

(** ** Concrete states and texts *)

(** Concrete states over the two-member enumeration. *)
Definition stale_entry : ChapterTranslation (L := TwoLanguages.enum) :=
  {| ct_chapter_id := py "ch1";
     ct_language := URDU;
     original_content_hash := py "abc";
     ct_translated_content := py "old";
     created_at := 100%Z;
     ct_updated_at := 100%Z |}.

Definition stale_world : World (L := TwoLanguages.enum) :=
  {| _translation_cache := [(py "ch1:urdu", stale_entry)];
     _user_preferences := [];
     requests := [] |}.

(** A text that starts with an empty paragraph, and a text whose first two
    paragraphs share a chunk. *)
Definition blank_first : str := [LF; LF] ++ repeat "a"%char 4500.

Definition two_in_a_chunk : str :=
  py "a" ++ [LF; LF] ++ py "b" ++ [LF; LF] ++ repeat "c"%char 4500.

Definition two_halves : str :=
  repeat "a"%char 2250 ++ [LF; LF] ++ repeat "b"%char 2250.

(** A mock that keeps lengths and nothing else. *)
Definition blot : Provider := mock (fun _ => "x"%char).

(** ** The plan of a translation *)

(** What a flush sends: the stripped chunk, or nothing when it is blank. *)
Definition flush_text (current_chunk : str) : list str :=
  if truthy (strip current_chunk) then [strip current_chunk] else [].

(** The chunks the loop flushes, in order, and the buffer it ends with. *)
Fixpoint plan_loop (paragraphs : list str) (current_chunk : str) : list str * str :=
  match paragraphs with
  | [] => ([], current_chunk)
  | para :: rest =>
      if len current_chunk + len para + 2 <=? max_chunk_size
      then plan_loop rest (current_chunk ++ para ++ paragraph_sep)
      else
        let (chunks, final) := plan_loop rest (para ++ paragraph_sep) in
        (flush_text current_chunk ++ chunks, final)
  end.

(** The texts a translation to a language other than English sends, if no
    request fails. *)
Definition planned_chunks (content : str) : list str :=
  if len content <=? max_chunk_size then [content]
  else
    let (chunks, final) := plan_loop (split paragraph_sep content) [] in
    chunks ++ flush_text final.

(** Sending texts one after the other until one fails: the translations
    received, the requests sent, and the reason of the failure if any. *)
Fixpoint ask_all (provider : Provider) (code : str) (history : list Request)
    (texts : list str) : list str * list Request * option str :=
  match texts with
  | [] => ([], [], None)
  | text :: rest =>
      let r := {| req_target := code; req_text := text |} in
      match provider history r with
      | Failed reason => ([], [r], Some reason)
      | Translated t =>
          let '(ts, sent, failure) := ask_all provider code (history ++ [r]) rest in
          (t :: ts, r :: sent, failure)
      end
  end.

(** The requests [sent], made one after the other from [history], were
    answered with the translations [ts]. *)
Fixpoint answered (provider : Provider) (history : list Request)
    (sent : list Request) (ts : list str) : Prop :=
  match sent, ts with
  | [], [] => True
  | r :: sent', t :: ts' =>
      provider history r = Translated t
      /\ answered provider (history ++ [r]) sent' ts'
  | _, _ => False
  end.

(** The buffer is empty, or a text of at most [max_chunk_size] characters
    followed by a separator. *)
Definition within_limit (chunk : str) : Prop :=
  chunk = [] \/ exists c, chunk = c ++ paragraph_sep /\ len c <= max_chunk_size.

(** A paragraph that is not empty and has no whitespace at its ends. *)
Definition trimmed (p : str) : bool := truthy p && str_eqb (strip p) p.

(** Equality of strings is decidable. *)
Definition str_eq_dec : forall a b : str, {a = b} + {a <> b} :=
  list_eq_dec ascii_dec.

Section Reachability.
Context {L : LanguageEnum}.

Definition with_requests (w : World) (sent : list Request) : World :=
  {| _translation_cache := _translation_cache w;
     _user_preferences := _user_preferences w;
     requests := requests w ++ sent |}.

(** The calls a user of the service can make. *)
Inductive Call :=
| CallTranslate (chapter_id content : str) (language : SupportedLanguage)
    (now : datetime) (latency_ms : Z)
| CallLookup (chapter_id : str) (language : SupportedLanguage) (content_hash : option str)
| CallSetPreference (session chapter_id : str) (language : SupportedLanguage) (now : datetime)
| CallGetPreference (session chapter_id : str)
| CallStats.

(** The state after a call, whether it returned or raised. *)
Definition after_call (provider : Provider) (c : Call) (w : World) : World :=
  match c with
  | CallTranslate chapter_id content language now latency_ms =>
      snd (translate_chapter provider chapter_id content language now latency_ms w)
  | CallLookup chapter_id language content_hash =>
      snd (get_cached_translation chapter_id language content_hash w)
  | CallSetPreference session chapter_id language now =>
      snd (set_user_preference session chapter_id language now w)
  | CallGetPreference session chapter_id =>
      snd (get_user_preference session chapter_id w)
  | CallStats => snd (get_cache_stats w)
  end.

Fixpoint after_calls (provider : Provider) (calls : list Call) (w : World) : World :=
  match calls with
  | [] => w
  | c :: rest => after_calls provider rest (after_call provider c w)
  end.

(** Every entry sits under the key of its own fields, with one timestamp
    and a fingerprint of 32 characters; no key occurs twice. *)
Definition consistent (w : World) : Prop :=
  NoDup (Dict.keys (_translation_cache w))
  /\ NoDup (Dict.keys (_user_preferences w))
  /\ (forall k c, In (k, c) (_translation_cache w) ->
        k = _get_cache_key (ct_chapter_id c) (ct_language c)
        /\ created_at c = ct_updated_at c
        /\ len (original_content_hash c) = 32)
  /\ (forall k p, In (k, p) (_user_preferences w) ->
        k = pref_key (session_id p) (up_chapter_id p)).

End Reachability.

Section PreferenceKeys.
Context {L : LanguageEnum}.

(** The preference keys that a sequence of calls writes. *)
Definition pref_keys_of (calls : list Call) : list str :=
  flat_map (fun c =>
              match c with
              | CallSetPreference session chapter_id _ _ => [pref_key session chapter_id]
              | _ => []
              end) calls.

End PreferenceKeys.

(** A state that caches a translation of the text "Hello". *)
Definition hello_entry : ChapterTranslation (L := TwoLanguages.enum) :=
  {| ct_chapter_id := py "ch1";
     ct_language := URDU;
     original_content_hash := Hashlib.md5_hex (py "Hello");
     ct_translated_content := py "salam";
     created_at := 100%Z;
     ct_updated_at := 100%Z |}.

Definition hello_world : World (L := TwoLanguages.enum) :=
  {| _translation_cache := [(py "ch1:urdu", hello_entry)];
     _user_preferences := [];
     requests := [] |}.

(** A provider that answers its first request and fails every later one. *)
Definition flaky : Provider :=
  fun history r =>
    match history with
    | [] => Translated (req_text r)
    | _ :: _ => Failed (py "429")
    end.

(** A provider that fails its first request and answers every later one. *)
Definition late : Provider :=
  fun history r =>
    match history with
    | [] => Failed (py "503")
    | _ :: _ => Translated (req_text r)
    end.

(** * Properties *)

(** ** The embedding on concrete inputs *)

Example md5_empty : Hashlib.md5_hex (py "") = py "d41d8cd98f00b204e9800998ecf8427e".
Proof. vm_compute. reflexivity. Qed.

Example md5_abc : Hashlib.md5_hex (py "abc") = py "900150983cd24fb0d6963f7d28e17f72".
Proof. vm_compute. reflexivity. Qed.

Example md5_hello : Hashlib.md5_hex (py "Hello world.") = py "764569e58f53ea8b6404f6fa7fc0247f".
Proof. vm_compute. reflexivity. Qed.

Example md5_two_blocks :
  Hashlib.md5_hex (repeat "a"%char 64) = py "014842d480b571495a4a0363793f7367".
Proof. vm_compute. reflexivity. Qed.

Example md5_56 :
  Hashlib.md5_hex (repeat "a"%char 56) = py "3b0c8ac703f828b04c6c197006d17218".
Proof. vm_compute. reflexivity. Qed.

Example md5_e_acute :
  Hashlib.md5_hex [ascii_of_nat 233] = py "66ddcd97cfdeabb2f6fb8a999b4bc76f".
Proof. vm_compute. reflexivity. Qed.

Example split_ex1 :
  split [LF; LF] (py "a" ++ [LF; LF; LF; LF] ++ py "b" ++ [LF; LF])
  = [py "a"; []; py "b"; []].
Proof. vm_compute. reflexivity. Qed.

Example split_ex2 : split [LF; LF] [LF; LF; LF] = [[]; [LF]].
Proof. vm_compute. reflexivity. Qed.

Example split_ex3 : split [LF; LF] [LF; LF; LF; LF] = [[]; []; []].
Proof. vm_compute. reflexivity. Qed.

Example split_ex4 : split [LF; LF] (py "a" ++ [LF; LF; LF] ++ py "b") = [py "a"; LF :: py "b"].
Proof. vm_compute. reflexivity. Qed.

Example split_ex5 : split (py ":") [] = [[]].
Proof. reflexivity. Qed.

Example strip_ex : strip (py "  a b " ++ [LF; LF]) = py "a b".
Proof. vm_compute. reflexivity. Qed.

Example strip_ex2 :
  strip ([ascii_of_nat 9; ascii_of_nat 28] ++ py " a " ++ [ascii_of_nat 160; ascii_of_nat 133])
  = py "a".
Proof. vm_compute. reflexivity. Qed.

Example endswith_ex : endswith (py "urdu") (py ":urdu") = false.
Proof. vm_compute. reflexivity. Qed.

Example short_text_ex :
  _translate_with_google (L := TwoLanguages.enum) echo (py "Hello world.") URDU init
  = (Return (py "Hello world."),
     {| _translation_cache := []; _user_preferences := [];
        requests := [{| req_target := py "ur"; req_text := py "Hello world." |}] |}).
Proof. vm_compute. reflexivity. Qed.

Example long_text_ex :
  map (fun r => len (req_text r))
   (requests (snd (_translate_with_google (L := TwoLanguages.enum) echo two_halves URDU init)))
  = [2250; 2250].
Proof. vm_compute. reflexivity. Qed.

(** ** Strings *)

Lemma str_eqb_spec (a b : str) : reflect (a = b) (str_eqb a b).
Proof.
  revert b; induction a as [|x a IH]; intros [|y b]; simpl;
    try (constructor; congruence).
  destruct (Ascii.eqb_spec x y) as [->|Hxy]; simpl.
  - destruct (IH b) as [->|Hab]; constructor; congruence.
  - constructor; congruence.
Qed.

Lemma str_eqb_refl (a : str) : str_eqb a a = true.
Proof. destruct (str_eqb_spec a a); congruence. Qed.

Lemma str_eqb_neq (a b : str) : a <> b -> str_eqb a b = false.
Proof. destruct (str_eqb_spec a b); congruence. Qed.

Lemma truthy_nonempty (s : str) : truthy s = true <-> s <> [].
Proof. destruct s; simpl; split; congruence. Qed.

Lemma startswith_app (p s : str) : startswith p (p ++ s) = true.
Proof.
  induction p as [|x p IH]; simpl; [reflexivity|].
  now rewrite Ascii.eqb_refl, IH.
Qed.

Lemma startswith_inv (p s : str) :
  startswith p s = true -> exists r, s = p ++ r.
Proof.
  revert s; induction p as [|x p IH]; intros s H; simpl in *.
  - now exists s.
  - destruct s as [|y s]; [discriminate|].
    apply andb_true_iff in H as [Hxy Hps].
    apply Ascii.eqb_eq in Hxy as ->.
    destruct (IH _ Hps) as [r ->]. now exists r.
Qed.

Lemma endswith_app (s suffix : str) : endswith (s ++ suffix) suffix = true.
Proof. unfold endswith. rewrite rev_app_distr. apply startswith_app. Qed.

(** ** Dictionaries *)

Section DictFacts.
Variable V : Type.
Implicit Types (d : Dict.dict V) (k : str) (v : V).

Lemma get_set_same d k v : Dict.get (Dict.set d k v) k = Some v.
Proof.
  induction d as [|[k' v'] d IH]; simpl.
  - now rewrite str_eqb_refl.
  - destruct (str_eqb k' k) eqn:E; simpl; rewrite E; auto.
Qed.

Lemma get_set_other d k k' v :
  k' <> k -> Dict.get (Dict.set d k v) k' = Dict.get d k'.
Proof.
  intros Hk. induction d as [|[k0 v0] d IH]; simpl.
  - rewrite str_eqb_neq; auto.
  - destruct (str_eqb_spec k0 k) as [->|Hk0]; simpl.
    + rewrite (str_eqb_neq k k'); auto.
    + now rewrite IH.
Qed.

Lemma get_del_same d k : Dict.get (Dict.del d k) k = None.
Proof.
  induction d as [|[k' v'] d IH]; simpl; [reflexivity|].
  destruct (str_eqb k' k) eqn:E; simpl; [assumption|]. now rewrite E.
Qed.

Lemma get_del_other d k k' :
  k' <> k -> Dict.get (Dict.del d k) k' = Dict.get d k'.
Proof.
  intros Hk. induction d as [|[k0 v0] d IH]; simpl; [reflexivity|].
  destruct (str_eqb_spec k0 k) as [->|Hk0]; simpl.
  - rewrite (str_eqb_neq k k'); auto.
  - now rewrite IH.
Qed.

Lemma del_absent d k : Dict.get d k = None -> Dict.del d k = d.
Proof.
  induction d as [|[k' v'] d IH]; simpl; [reflexivity|].
  destruct (str_eqb k' k) eqn:E; simpl; [discriminate|].
  intros H. now rewrite (IH H).
Qed.

Lemma get_in_keys d k v : Dict.get d k = Some v -> In k (Dict.keys d).
Proof.
  induction d as [|[k' v'] d IH]; simpl; [discriminate|].
  destruct (str_eqb_spec k' k) as [->|Hk]; auto.
Qed.

End DictFacts.

(** ** The content hash *)

Lemma le_bytes_length (n : nat) (x : Z) : List.length (Hashlib.le_bytes n x) = n.
Proof. unfold Hashlib.le_bytes. now rewrite length_map, length_seq. Qed.

Lemma hexdigest_length (msg : list Z) : len (Hashlib.hexdigest msg) = 32.
Proof.
  unfold Hashlib.hexdigest, Hashlib.digest, len.
  destruct (Hashlib.md5_state msg) as [[[a b] c] d].
  reflexivity.
Qed.

Lemma content_hash_truthy (content : str) :
  truthy (Hashlib.md5_hex content) = true.
Proof.
  pose proof (hexdigest_length (Hashlib.encode_utf8 content)) as H.
  unfold Hashlib.md5_hex. destruct (Hashlib.hexdigest _); [discriminate|reflexivity].
Qed.

(** ** What a translation does to the state *)

Section ServiceFacts.
Context {L : LanguageEnum}.
Variable provider : Provider.

Lemma language_eqb_refl (a : SupportedLanguage) : language_eqb a a = true.
Proof. destruct (language_eqb_spec a a); congruence. Qed.

Lemma language_eqb_neq (a b : SupportedLanguage) : a <> b -> language_eqb a b = false.
Proof. destruct (language_eqb_spec a b); congruence. Qed.

Lemma with_cache_same (w : World) : with_cache w (_translation_cache w) = w.
Proof. now destruct w. Qed.

Lemma extends_refl code w : extends code w w.
Proof.
  repeat split. exists []. now rewrite app_nil_r.
Qed.

Lemma extends_trans code w1 w2 w3 :
  extends code w1 w2 -> extends code w2 w3 -> extends code w1 w3.
Proof.
  intros (Hc1 & Hp1 & s1 & Hr1 & Hf1) (Hc2 & Hp2 & s2 & Hr2 & Hf2).
  repeat split; try congruence.
  exists (s1 ++ s2). split.
  - now rewrite Hr2, Hr1, app_assoc.
  - apply Forall_app; auto.
Qed.

Lemma provider_only_ret {A} code (a : A) : provider_only code (ret a).
Proof.
  intros w o w' H. inversion H; subst. split; [apply extends_refl|exact I].
Qed.

Lemma provider_only_bind {A B} code (m : M A) (k : A -> M B) :
  provider_only code m -> (forall a, provider_only code (k a)) ->
  provider_only code (bind m k).
Proof.
  intros Hm Hk w o w' H. unfold bind in H.
  destruct (m w) as [[a|e] w1] eqn:E; destruct (Hm _ _ _ E) as [Hext Hexn].
  - destruct (Hk a _ _ _ H) as [Hext' Ho]. split; [|exact Ho].
    eapply extends_trans; eauto.
  - inversion H; subst. auto.
Qed.

Lemma provider_only_translate code text : provider_only code (translate provider code text).
Proof.
  intros w o w' H. unfold translate in H.
  assert (Hext : extends code w (with_request w {| req_target := code; req_text := text |})).
  { repeat split. eexists; split; [reflexivity|]. repeat constructor. }
  destruct (provider _ _); inversion H; subst; split; eauto.
Qed.

Lemma provider_only_flush code parts chunk :
  provider_only code (flush provider code parts chunk).
Proof.
  unfold flush. destruct (truthy (strip chunk)).
  - apply provider_only_bind; [apply provider_only_translate|].
    intros a. apply provider_only_ret.
  - apply provider_only_ret.
Qed.

Lemma provider_only_chunk_loop code paragraphs parts chunk :
  provider_only code (chunk_loop provider code paragraphs parts chunk).
Proof.
  revert parts chunk. induction paragraphs as [|para rest IH]; intros parts chunk; simpl.
  - apply provider_only_ret.
  - destruct (_ <=? _); [apply IH|].
    apply provider_only_bind; [apply provider_only_flush|]. intros a. apply IH.
Qed.

Lemma translate_with_google_frame content target w o w' :
  _translate_with_google provider content target w = (o, w') ->
  extends (lang_code_of target) w w' /\
  match o with
  | Return _ => True
  | Raise e => TranslationFailed e
  end.
Proof.
  unfold _translate_with_google. fold (lang_code_of target).
  destruct (language_eqb target ENGLISH).
  - intros H. inversion H; subst. split; [apply extends_refl|exact I].
  - unfold try_except.
    set (body := if len content <=? max_chunk_size then _ else _).
    assert (Hbody : provider_only (lang_code_of target) body).
    { unfold body. destruct (_ <=? _).
      - apply provider_only_translate.
      - apply provider_only_bind; [apply provider_only_chunk_loop|]. intros st.
        apply provider_only_bind; [apply provider_only_flush|]. intros parts.
        apply provider_only_ret. }
    destruct (body w) as [[a|e] w1] eqn:E; destruct (Hbody _ _ _ E) as [Hext Hexn];
      intros H; inversion H; subst; split; auto.
    destruct Hexn as [msg ->]. now exists msg.
Qed.

End ServiceFacts.

(** ** The cache protocol *)

Section CacheProtocol.
Context {L : LanguageEnum}.
Variable provider : Provider.

Lemma lookup_with_hash w chapter_id content language :
  get_cached_translation chapter_id language (Some (_compute_content_hash content)) w
  = match fresh_entry w chapter_id content language with
    | Some c => (Return (Some c), w)
    | None => (Return None, evicted w chapter_id language)
    end.
Proof.
  unfold get_cached_translation, fresh_entry, evicted.
  destruct (Dict.get _ _) as [c|] eqn:E.
  - unfold _compute_content_hash at 1. rewrite content_hash_truthy. simpl.
    fold (_compute_content_hash content). now destruct (str_eqb _ _).
  - rewrite (del_absent _ _ _ E). now rewrite with_cache_same.
Qed.

Lemma translate_chapter_hit w chapter_id content language now latency_ms c :
  fresh_entry w chapter_id content language = Some c ->
  translate_chapter provider chapter_id content language now latency_ms w
  = (Return (cached_response chapter_id language c, latency_ms), w).
Proof.
  intros H. unfold translate_chapter, bind. now rewrite lookup_with_hash, H.
Qed.

Lemma translate_chapter_miss w chapter_id content language now latency_ms :
  fresh_entry w chapter_id content language = None ->
  translate_chapter provider chapter_id content language now latency_ms w
  = match _translate_with_google provider content language (evicted w chapter_id language) with
    | (Return translated, w') =>
        (Return (fresh_response chapter_id language translated now, latency_ms),
         with_cache w' (Dict.set (_translation_cache w') (_get_cache_key chapter_id language)
                          (stored_entry chapter_id content language translated now)))
    | (Raise e, w') => (Raise e, w')
    end.
Proof.
  intros H. unfold translate_chapter, bind. rewrite lookup_with_hash, H.
  now destruct (_translate_with_google _ _ _ _) as [[t|e] w'].
Qed.

(** After any call that returns, the text is served from the cache. *)
Lemma fresh_entry_after_success w chapter_id content language now latency_ms r w' :
  translate_chapter provider chapter_id content language now latency_ms w = (Return r, w') ->
  exists c, fresh_entry w' chapter_id content language = Some c /\
            ct_translated_content c = translated_content (fst r).
Proof.
  destruct (fresh_entry w chapter_id content language) as [c|] eqn:E.
  - rewrite (translate_chapter_hit _ _ _ _ _ _ _ E). intros H. inversion H; subst. eauto.
  - rewrite (translate_chapter_miss _ _ _ _ _ _ E).
    destruct (_translate_with_google _ _ _ _) as [[t|e] w1]; intros H; inversion H; subst.
    eexists. split.
    + unfold fresh_entry. simpl. rewrite get_set_same. simpl. now rewrite str_eqb_refl.
    + reflexivity.
Qed.

End CacheProtocol.

Section Claims.
Context {L : LanguageEnum}.
Variable provider : Provider.

(** C6. When the target language is English, [_translate_with_google]
    returns the text unchanged and makes no provider call: the state, with
    its list of requests sent to the provider, is left as it was. *)
Theorem english_target_is_identity (content : str) (w : World) :
  _translate_with_google provider content ENGLISH w = (Return content, w).
Proof.
  unfold _translate_with_google. now rewrite language_eqb_refl.
Qed.

(** C4 (amended). For an existing entry at (chapter_id, language): a lookup
    with a non-empty expected fingerprint that differs from the stored one
    deletes the entry (and only that entry) and reports absent; a lookup
    with no fingerprint, or with the empty string as fingerprint, returns
    the entry and leaves the state unchanged. *)
Theorem lookup_evicts_on_mismatch (w : World) (chapter_id : str)
    (language : SupportedLanguage) (c : ChapterTranslation) :
  Dict.get (_translation_cache w) (_get_cache_key chapter_id language) = Some c ->
  (forall h, h <> [] -> h <> original_content_hash c ->
     get_cached_translation chapter_id language (Some h) w
       = (Return None, evicted w chapter_id language)
     /\ Dict.get (_translation_cache (evicted w chapter_id language))
                 (_get_cache_key chapter_id language) = None
     /\ forall k, k <> _get_cache_key chapter_id language ->
          Dict.get (_translation_cache (evicted w chapter_id language)) k
          = Dict.get (_translation_cache w) k)
  /\ get_cached_translation chapter_id language None w = (Return (Some c), w)
  /\ get_cached_translation chapter_id language (Some []) w = (Return (Some c), w).
Proof.
  intros Hget. unfold get_cached_translation. rewrite Hget. simpl.
  repeat split.
  - apply truthy_nonempty in H. rewrite H, str_eqb_neq by congruence. reflexivity.
  - apply get_del_same.
  - intros k Hk. now apply get_del_other.
Qed.

(** C2. After a call of [translate_chapter] on text T1 that returned, a call
    with the same chapter_id and language and a text T2 of a different
    fingerprint does not serve T1's entry: that entry is evicted, the
    translator is invoked on T2, and the call does what the translator
    does; a response it returns has [cached = false] and carries the fresh
    translation. *)
Theorem changed_text_is_retranslated (chapter_id t1 t2 : str)
    (language : SupportedLanguage) (now1 now2 : datetime) (lat1 lat2 : Z)
    (w0 w1 : World) (r1 : TranslationResponse * Z) :
  translate_chapter provider chapter_id t1 language now1 lat1 w0 = (Return r1, w1) ->
  _compute_content_hash t2 <> _compute_content_hash t1 ->
  Dict.get (_translation_cache (evicted w1 chapter_id language))
           (_get_cache_key chapter_id language) = None
  /\ translate_chapter provider chapter_id t2 language now2 lat2 w1
     = match _translate_with_google provider t2 language (evicted w1 chapter_id language) with
       | (Return translated, w2) =>
           (Return (fresh_response chapter_id language translated now2, lat2),
            with_cache w2
              (Dict.set (_translation_cache w2) (_get_cache_key chapter_id language)
                 (stored_entry chapter_id t2 language translated now2)))
       | (Raise e, w2) => (Raise e, w2)
       end
  /\ forall r2 w2,
       translate_chapter provider chapter_id t2 language now2 lat2 w1 = (Return r2, w2) ->
       cached (fst r2) = false.
Proof.
  intros H1 Hneq.
  destruct (fresh_entry_after_success _ _ _ _ _ _ _ _ _ H1) as (c & Hc & _).
  assert (Hmiss : fresh_entry w1 chapter_id t2 language = None).
  { unfold fresh_entry in *.
    destruct (Dict.get _ _) as [c'|]; [|reflexivity].
    destruct (str_eqb_spec (original_content_hash c') (_compute_content_hash t1)) as [E|];
      [|discriminate].
    rewrite str_eqb_neq; congruence. }
  split; [apply get_del_same|].
  rewrite (translate_chapter_miss _ _ _ _ _ _ _ Hmiss). split; [reflexivity|].
  intros r2 w2.
  destruct (_translate_with_google _ _ _ _) as [[t|e] w']; intros H; inversion H.
  reflexivity.
Qed.

(** C3. Translating the same (chapter_id, text, language) twice, the text
    not being cached before the first call and the first call returning:
    the first response has [cached = false], the second call returns with
    [cached = true] and the same translated text, and leaves the state (and
    so the list of provider requests) as the first call left it. *)
Theorem same_text_twice (chapter_id content : str) (language : SupportedLanguage)
    (now1 now2 : datetime) (lat1 lat2 : Z) (w0 w1 : World)
    (r1 : TranslationResponse * Z) :
  fresh_entry w0 chapter_id content language = None ->
  translate_chapter provider chapter_id content language now1 lat1 w0 = (Return r1, w1) ->
  cached (fst r1) = false
  /\ exists r2,
       translate_chapter provider chapter_id content language now2 lat2 w1 = (Return r2, w1)
       /\ cached (fst r2) = true
       /\ translated_content (fst r2) = translated_content (fst r1).
Proof.
  intros Hmiss H1. split.
  - rewrite (translate_chapter_miss _ _ _ _ _ _ _ Hmiss) in H1.
    destruct (_translate_with_google _ _ _ _) as [[t|e] w']; inversion H1. reflexivity.
  - destruct (fresh_entry_after_success _ _ _ _ _ _ _ _ _ H1) as (c & Hc & Htext).
    exists (cached_response chapter_id language c, lat2).
    rewrite (translate_chapter_hit _ _ _ _ _ _ _ _ Hc). auto.
Qed.

(** C8 (amended). A store made by [translate_chapter] writes a whole new
    entry: whenever a call returns an uncached response, the entry of its
    key has [created_at] and [updated_at] both equal to the time of this
    call, whatever entry the key held before; the entries of other keys
    are as they were. *)
Theorem store_resets_both_timestamps (chapter_id content : str)
    (language : SupportedLanguage) (now : datetime) (lat : Z) (w w' : World)
    (r : TranslationResponse * Z) :
  translate_chapter provider chapter_id content language now lat w = (Return r, w') ->
  cached (fst r) = false ->
  (exists c,
     Dict.get (_translation_cache w') (_get_cache_key chapter_id language) = Some c
     /\ created_at c = now /\ ct_updated_at c = now
     /\ original_content_hash c = _compute_content_hash content
     /\ ct_translated_content c = translated_content (fst r))
  /\ translated_at (fst r) = now
  /\ forall k, k <> _get_cache_key chapter_id language ->
       Dict.get (_translation_cache w') k = Dict.get (_translation_cache w) k.
Proof.
  intros H Hc.
  destruct (fresh_entry w chapter_id content language) as [c|] eqn:E.
  - rewrite (translate_chapter_hit _ _ _ _ _ _ _ _ E) in H. inversion H; subst.
    discriminate.
  - rewrite (translate_chapter_miss _ _ _ _ _ _ _ E) in H.
    destruct (_translate_with_google _ _ _ _) as [[t|e'] w1] eqn:Et; inversion H; subst.
    destruct (translate_with_google_frame _ _ _ _ _ _ Et) as [(Hcache & _) _].
    simpl in *. repeat split.
    + eexists. rewrite get_set_same. repeat split.
    + intros k Hk. rewrite get_set_other by assumption. rewrite Hcache.
      now apply get_del_other.
Qed.

End Claims.

(** ** The cache protocol on concrete runs *)

#[local] Existing Instance TwoLanguages.enum.

(** C4, the claim as stated fails: the entry of ("ch1", Urdu) stores the
    fingerprint "abc"; a lookup with the empty string as expected
    fingerprint, which differs from it, returns the entry and deletes
    nothing. *)
Lemma empty_fingerprint_is_not_compared :
  Dict.get (_translation_cache stale_world) (_get_cache_key (py "ch1") URDU)
    = Some stale_entry
  /\ [] <> original_content_hash stale_entry
  /\ get_cached_translation (py "ch1") URDU (Some []) stale_world
     = (Return (Some stale_entry), stale_world).
Proof. repeat split. discriminate. Qed.

Lemma lookup_evicts_on_mismatch_witness :
  get_cached_translation (py "ch1") URDU (Some (py "xyz")) stale_world
    = (Return None, with_cache stale_world [])
  /\ get_cached_translation (py "ch1") URDU None stale_world
     = (Return (Some stale_entry), stale_world).
Proof.
  destruct (lookup_evicts_on_mismatch stale_world (py "ch1") URDU stale_entry eq_refl)
    as (Hsome & Hnone & _).
  split; [|exact Hnone].
  destruct (Hsome (py "xyz")) as [H _]; [discriminate|discriminate|exact H].
Defined.

Lemma changed_text_is_retranslated_witness :
  exists r1 w1 r2 w2,
    translate_chapter (L := TwoLanguages.enum) echo (py "ch1") (py "Hello") URDU 100%Z 5%Z init
      = (Return r1, w1)
    /\ translate_chapter echo (py "ch1") (py "World") URDU 200%Z 7%Z w1 = (Return r2, w2)
    /\ cached (fst r2) = false.
Proof.
  destruct (translate_chapter (L := TwoLanguages.enum) echo (py "ch1") (py "Hello") URDU 100%Z 5%Z init)
    as [[r1|e1] w1] eqn:H1; [|vm_compute in H1; discriminate H1].
  assert (Hneq : _compute_content_hash (py "World") <> _compute_content_hash (py "Hello"))
    by (vm_compute; discriminate).
  destruct (changed_text_is_retranslated echo (py "ch1") (py "Hello") (py "World") URDU 100%Z 200%Z 5%Z 7%Z init w1 r1 H1 Hneq) as (_ & Heq & Hcached).
  destruct (translate_chapter echo (py "ch1") (py "World") URDU 200%Z 7%Z w1)
    as [[r2|e2] w2] eqn:H2.
  - exists r1, w1, r2, w2.
    split; [reflexivity|split; [exact H2|exact (Hcached r2 w2 eq_refl)]].
  - exfalso.
    destruct (_translate_with_google echo (py "World") URDU (evicted w1 (py "ch1") URDU))
      as [[t|e] w'] eqn:Et; [discriminate Heq|].
    unfold _translate_with_google, try_except, translate, echo, mock in Et.
    simpl in Et. discriminate Et.
Defined.

Lemma same_text_twice_witness :
  exists r1 w1 r2,
    translate_chapter (L := TwoLanguages.enum) echo (py "ch1") (py "Hello world.") URDU 100%Z 5%Z init
      = (Return r1, w1)
    /\ cached (fst r1) = false
    /\ translate_chapter echo (py "ch1") (py "Hello world.") URDU 200%Z 7%Z w1 = (Return r2, w1)
    /\ cached (fst r2) = true
    /\ translated_content (fst r2) = translated_content (fst r1).
Proof.
  destruct (translate_chapter (L := TwoLanguages.enum) echo (py "ch1") (py "Hello world.") URDU 100%Z 5%Z init)
    as [[r1|e1] w1] eqn:H1; [|vm_compute in H1; discriminate H1].
  destruct (same_text_twice echo (py "ch1") (py "Hello world.") URDU 100%Z 200%Z 5%Z 7%Z init w1 r1
              eq_refl H1) as (Hc1 & r2 & H2 & Hc2 & Htext).
  exists r1, w1, r2. auto.
Defined.

(** C5, the claim as stated fails: the key holds a stale entry, the
    provider is down; the call fails and the cache after it is empty, not
    the cache before it. *)
Lemma failed_refresh_evicts_stale_entry :
  exists e w',
    translate_chapter down (py "ch1") (py "new text") URDU 200%Z 3%Z stale_world = (Raise e, w')
    /\ _translation_cache stale_world = [(py "ch1:urdu", stale_entry)]
    /\ _translation_cache w' = []
    /\ _translation_cache w' <> _translation_cache stale_world.
Proof.
  eexists _, _. split; [vm_compute; reflexivity|].
  repeat split. discriminate.
Qed.

(** C8, the claim as stated fails: the entry of ("ch1", Urdu) is created at
    time 100; after a refresh at time 200 its [created_at] is 200. *)
Lemma refresh_resets_created_at :
  exists r1 w1 c1 r2 w2 c2,
    translate_chapter (L := TwoLanguages.enum) echo (py "ch1") (py "Hello") URDU 100%Z 5%Z init
      = (Return r1, w1)
    /\ Dict.get (_translation_cache w1) (_get_cache_key (py "ch1") URDU) = Some c1
    /\ created_at c1 = 100%Z
    /\ translate_chapter echo (py "ch1") (py "World") URDU 200%Z 7%Z w1 = (Return r2, w2)
    /\ Dict.get (_translation_cache w2) (_get_cache_key (py "ch1") URDU) = Some c2
    /\ created_at c2 = 200%Z
    /\ ct_updated_at c2 = 200%Z.
Proof.
  eexists _, _, _, _, _, _.
  split; [vm_compute; reflexivity|].
  split; [vm_compute; reflexivity|].
  split; [reflexivity|].
  split; [vm_compute; reflexivity|].
  split; [vm_compute; reflexivity|].
  split; reflexivity.
Qed.

Lemma store_resets_both_timestamps_witness :
  exists r w' c,
    translate_chapter (L := TwoLanguages.enum) echo (py "ch1") (py "World") URDU 200%Z 7%Z stale_world
      = (Return r, w')
    /\ Dict.get (_translation_cache w') (_get_cache_key (py "ch1") URDU) = Some c
    /\ created_at c = 200%Z /\ ct_updated_at c = 200%Z.
Proof.
  destruct (translate_chapter (L := TwoLanguages.enum) echo (py "ch1") (py "World") URDU 200%Z 7%Z stale_world)
    as [[r|e] w'] eqn:H; [|vm_compute in H; discriminate H].
  assert (Hc : cached (fst r) = false).
  { vm_compute in H. inversion H. reflexivity. }
  destruct (store_resets_both_timestamps echo (py "ch1") (py "World") URDU 200%Z 7%Z stale_world w' r H Hc)
    as ((c & Hget & Hcr & Hup & _) & _).
  exists r, w', c. auto.
Defined.

(** ** Keys with a colon *)

Lemma hd_push (c : ascii) (pieces : list str) :
  hd [] (push c pieces) = c :: hd [] pieces.
Proof. now destruct pieces. Qed.

Lemma split_colon_hd (s : str) : hd [] (split (py ":") s) = before_colon s.
Proof.
  unfold split. induction s as [|c s IH]; [reflexivity|].
  change (split_from (py ":") 0 (c :: s))
    with (if Ascii.eqb colon c && true
          then [] :: split_from (py ":") 0 s
          else push c (split_from (py ":") 0 s)).
  rewrite andb_true_r, (Ascii.eqb_sym colon c).
  change (before_colon (c :: s))
    with (if Ascii.eqb c colon then [] else c :: before_colon s).
  destruct (Ascii.eqb c colon); [reflexivity|].
  now rewrite hd_push, IH.
Qed.

Lemma before_colon_app (a b : str) :
  ~ In colon a -> before_colon (a ++ colon :: b) = a.
Proof.
  induction a as [|c a IH]; simpl; intros H.
  - reflexivity.
  - destruct (Ascii.eqb_spec c colon) as [->|Hc]; [tauto|].
    rewrite IH; tauto.
Qed.

Lemma before_colon_without (a : str) : ~ In colon a -> before_colon a = a.
Proof.
  induction a as [|c a IH]; simpl; intros H; [reflexivity|].
  destruct (Ascii.eqb_spec c colon) as [->|Hc]; [tauto|].
  rewrite IH; tauto.
Qed.

Lemma before_colon_cut (a b : str) :
  before_colon (a ++ colon :: b) = before_colon a.
Proof.
  induction a as [|c a IH]; simpl.
  - reflexivity.
  - destruct (Ascii.eqb c colon); [reflexivity|]. now rewrite IH.
Qed.

Lemma before_colon_has_none (s : str) : ~ In colon (before_colon s).
Proof.
  induction s as [|c s IH]; simpl; [tauto|].
  destruct (Ascii.eqb_spec c colon) as [->|Hc]; simpl; [tauto|].
  intros [H|H]; [congruence|tauto].
Qed.

(** A composed key splits in one way when its first part has no colon. *)
Lemma colon_key_injective (a a' b b' : str) :
  ~ In colon a -> ~ In colon a' ->
  a ++ py ":" ++ b = a' ++ py ":" ++ b' -> a = a' /\ b = b'.
Proof.
  intros Ha Ha' H. change (py ":" ++ b) with (colon :: b) in H.
  change (py ":" ++ b') with (colon :: b') in H.
  assert (E : a = a').
  { rewrite <- (before_colon_app a b Ha), <- (before_colon_app a' b' Ha'). now rewrite H. }
  subst a'. split; [reflexivity|].
  apply app_inv_head in H. congruence.
Qed.

Section Keys.
Context {L : LanguageEnum}.

Lemma run_sets_absent (calls : list SetCall) (w : World) (k : str) :
  Forall (fun c => pref_key (sc_session c) (sc_chapter c) <> k) calls ->
  Dict.get (_user_preferences (run_sets calls w)) k = Dict.get (_user_preferences w) k.
Proof.
  revert w. induction calls as [|c rest IH]; intros w H; simpl; [reflexivity|].
  inversion H as [|c' rest' Hc Hrest]; subst. rewrite IH by assumption. simpl.
  apply get_set_other. intros E. apply Hc. now rewrite E.
Qed.

(** X13. Preferences are an upsert, the last write wins: setting preference A
    and then B for one (session_id, chapter_id) makes [get_user_preference]
    return B, and a get does not change the state.  After any sequence of
    sets on a new service, a get on a pair reports absent when no set was
    made under the same composed key session_id:chapter_id, which is the
    case for a pair never set when the session ids hold no colon. *)
Lemma preference_last_write_wins (w : World) (session chapter_id : str)
    (a b : SupportedLanguage) (now1 now2 : datetime) :
  let w1 := snd (set_user_preference session chapter_id a now1 w) in
  let w2 := snd (set_user_preference session chapter_id b now2 w1) in
  get_user_preference session chapter_id w2
    = (Return (Some {| session_id := session;
                       up_chapter_id := chapter_id;
                       preferred_language := b;
                       up_updated_at := now2 |}), w2)
  /\ (forall calls s c,
        Forall (fun call => pref_key (sc_session call) (sc_chapter call) <> pref_key s c) calls ->
        get_user_preference s c (run_sets calls init) = (Return None, run_sets calls init))
  /\ (forall calls s c,
        ~ In colon s ->
        Forall (fun call => ~ In colon (sc_session call)
                            /\ (sc_session call, sc_chapter call) <> (s, c)) calls ->
        get_user_preference s c (run_sets calls init) = (Return None, run_sets calls init)).
Proof.
  intros w1 w2.
  assert (Hkey : forall calls s c,
    Forall (fun call => pref_key (sc_session call) (sc_chapter call) <> pref_key s c) calls ->
    get_user_preference s c (run_sets calls init) = (Return None, run_sets calls init)).
  { intros calls s c H. unfold get_user_preference.
    fold (pref_key s c). now rewrite (run_sets_absent calls init (pref_key s c) H). }
  split; [|split; [exact Hkey|]].
  - unfold get_user_preference, w2. simpl. now rewrite get_set_same.
  - intros calls s c Hs H. apply Hkey.
    eapply Forall_impl; [|exact H]. intros call [Hcall Hneq] E.
    unfold pref_key in E.
    destruct (colon_key_injective _ _ _ _ Hcall Hs E) as [E1 E2].
    apply Hneq. now rewrite E1, E2.
Qed.

(** C10. For a cached Urdu translation: when the chapter_id holds a colon,
    [get_cache_stats] lists under [chapters_with_urdu] the part of the
    chapter_id before its first colon and not the chapter_id itself; when
    it holds none, the chapter_id is listed.  No listed string holds a
    colon, and the call leaves the state as it was. *)
Theorem stats_list_chapter_up_to_colon (w : World) (chapter_id : str)
    (c : ChapterTranslation) :
  Dict.get (_translation_cache w) (_get_cache_key chapter_id URDU) = Some c ->
  exists stats,
    get_cache_stats w = (Return stats, w)
    /\ (forall prefix rest,
          chapter_id = prefix ++ py ":" ++ rest -> ~ In colon prefix ->
          In prefix (chapters_with_urdu stats)
          /\ ~ In chapter_id (chapters_with_urdu stats))
    /\ (~ In colon chapter_id -> In chapter_id (chapters_with_urdu stats))
    /\ Forall (fun listed => ~ In colon listed) (chapters_with_urdu stats).
Proof.
  intros Hget. eexists. split; [reflexivity|]. simpl.
  assert (Hnone : Forall (fun listed => ~ In colon listed)
            (map (fun k => hd [] (split (py ":") k))
               (filter (fun k => endswith k (py ":urdu")) (Dict.keys (_translation_cache w))))).
  { apply Forall_forall. intros s Hs. apply in_map_iff in Hs as (k & <- & _).
    rewrite split_colon_hd. apply before_colon_has_none. }
  assert (Hin : In (before_colon chapter_id)
            (map (fun k => hd [] (split (py ":") k))
               (filter (fun k => endswith k (py ":urdu")) (Dict.keys (_translation_cache w))))).
  { apply in_map_iff. exists (_get_cache_key chapter_id URDU). split.
    - rewrite split_colon_hd. unfold _get_cache_key. apply before_colon_cut.
    - apply filter_In. split; [eapply get_in_keys; eauto|].
      unfold _get_cache_key. rewrite value_URDU.
      change (chapter_id ++ py ":" ++ py "urdu") with (chapter_id ++ py ":urdu").
      apply endswith_app. }
  repeat split.
  - subst chapter_id. change (py ":" ++ rest) with (colon :: rest) in Hin.
    now rewrite before_colon_app in Hin.
  - intros Hlisted. rewrite Forall_forall in Hnone. apply (Hnone _ Hlisted).
    subst chapter_id. apply in_or_app. right. now left.
  - intros Hno. now rewrite before_colon_without in Hin.
  - exact Hnone.
Qed.

End Keys.

(** C9, on the failing input: only the pair ("a:b", "c") is set on a new
    service; a get on the pair ("a", "b:c"), which was never set, does not
    report absent but returns the preference of the other pair, because
    both pairs compose to the key "a:b:c". *)
Lemma unset_pair_with_colliding_key :
  exists w p,
    set_user_preference (py "a:b") (py "c") URDU 100%Z init = (Return p, w)
    /\ (py "a", py "b:c") <> (py "a:b", py "c")
    /\ get_user_preference (py "a") (py "b:c") w = (Return (Some p), w)
    /\ session_id p = py "a:b".
Proof.
  eexists _, _. split; [reflexivity|]. repeat split. discriminate.
Qed.

Lemma stats_list_chapter_up_to_colon_witness :
  exists stats,
    get_cache_stats
      (with_cache init [(py "vol1:ch2:urdu", stale_entry); (py "ch1:urdu", stale_entry)])
    = (Return stats,
       with_cache init [(py "vol1:ch2:urdu", stale_entry); (py "ch1:urdu", stale_entry)])
    /\ chapters_with_urdu stats = [py "vol1"; py "ch1"]
    /\ In (py "vol1") (chapters_with_urdu stats)
    /\ ~ In (py "vol1:ch2") (chapters_with_urdu stats).
Proof.
  destruct (stats_list_chapter_up_to_colon
              (with_cache init [(py "vol1:ch2:urdu", stale_entry); (py "ch1:urdu", stale_entry)])
              (py "vol1:ch2") stale_entry eq_refl) as (stats & Hrun & Hcolon & _).
  exists stats. split; [exact Hrun|].
  split; [inversion Hrun; reflexivity|].
  apply (Hcolon (py "vol1") (py "ch2")); [reflexivity|].
  intros H. simpl in H. repeat (destruct H as [H|H]; [discriminate H|]). exact H.
Defined.


(** ** Paragraphs *)

Lemma list_ind2 (A : Type) (P : list A -> Prop) :
  P [] -> (forall a, P [a]) ->
  (forall a b l, P l -> P (b :: l) -> P (a :: b :: l)) ->
  forall l, P l.
Proof.
  intros H0 H1 H2 l.
  assert (H : P l /\ forall a, P (a :: l)); [|tauto].
  induction l as [|b l [IH1 IH2]]; split; auto.
Qed.

Lemma ends_lf_cons (c d : ascii) (s : str) : ends_lf (c :: d :: s) = ends_lf (d :: s).
Proof. reflexivity. Qed.

Lemma ends_lf_app_last (s : str) (c : ascii) : ends_lf (s ++ [c]) = Ascii.eqb c LF.
Proof.
  induction s as [|d s IH]; [reflexivity|].
  destruct s as [|e s]; [reflexivity|].
  change (ends_lf ((d :: e :: s) ++ [c])) with (ends_lf ((e :: s) ++ [c])). exact IH.
Qed.

Lemma ends_lf_app (a b : str) : b <> [] -> ends_lf (a ++ b) = ends_lf b.
Proof.
  intros Hb. induction a as [|c a IH]; [reflexivity|].
  simpl app. destruct (a ++ b) as [|d r] eqn:E.
  - destruct a; destruct b; simpl in E; congruence.
  - now rewrite ends_lf_cons.
Qed.

Lemma split_nil : split paragraph_sep [] = [[]].
Proof. reflexivity. Qed.

Lemma split_sep (s : str) :
  split paragraph_sep (LF :: LF :: s) = [] :: split paragraph_sep s.
Proof. reflexivity. Qed.

Lemma split_other (c : ascii) (s : str) :
  startswith paragraph_sep (c :: s) = false ->
  split paragraph_sep (c :: s) = push c (split paragraph_sep s).
Proof.
  intros H. unfold split.
  change (split_from paragraph_sep 0 (c :: s))
    with (if startswith paragraph_sep (c :: s)
          then [] :: split_from paragraph_sep (len paragraph_sep - 1) s
          else push c (split_from paragraph_sep 0 s)).
  now rewrite H.
Qed.

Lemma startswith_sep (c : ascii) (s : str) :
  startswith paragraph_sep (c :: s) = true ->
  c = LF /\ exists s', s = LF :: s'.
Proof.
  intros H. apply startswith_inv in H as [r H].
  inversion H; subst. eauto.
Qed.

Lemma startswith_sep_other (c : ascii) (s : str) :
  c <> LF -> startswith paragraph_sep (c :: s) = false.
Proof.
  intros Hc. destruct (startswith paragraph_sep (c :: s)) eqn:E; [|reflexivity].
  apply startswith_sep in E as [-> _]. congruence.
Qed.

Lemma startswith_sep_app (c d : ascii) (s r : str) :
  startswith paragraph_sep (c :: d :: s) = false ->
  startswith paragraph_sep (c :: (d :: s) ++ r) = false.
Proof.
  intros H. destruct (startswith paragraph_sep (c :: (d :: s) ++ r)) eqn:E; [|reflexivity].
  apply startswith_sep in E as [-> [s' E]]. inversion E; subst.
  rewrite <- H. symmetry. apply (startswith_app paragraph_sep s).
Qed.

Lemma split_cases (s : str) :
  (exists s', s = LF :: LF :: s')
  \/ s = []
  \/ (exists c s', s = c :: s' /\ startswith paragraph_sep s = false).
Proof.
  destruct s as [|c s]; [auto|].
  destruct (startswith paragraph_sep (c :: s)) eqn:E.
  - left. apply startswith_sep in E as [-> [s' ->]]. eauto.
  - right. right. eauto.
Qed.

Lemma split_not_nil (s : str) : split paragraph_sep s <> [].
Proof.
  destruct (split_cases s) as [[s' ->]|[->|(c & s' & -> & H)]].
  - rewrite split_sep. discriminate.
  - discriminate.
  - rewrite (split_other _ _ H). destruct (split paragraph_sep s'); discriminate.
Qed.

Lemma push_app (c : ascii) (l1 l2 : list str) :
  l1 <> [] -> push c (l1 ++ l2) = push c l1 ++ l2.
Proof. destruct l1; [congruence|reflexivity]. Qed.

(** A separator after a string that does not end with a line feed is found
    where it stands. *)
Lemma split_app_sep (s1 s2 : str) :
  ends_lf s1 = false ->
  split paragraph_sep (s1 ++ paragraph_sep ++ s2)
  = split paragraph_sep s1 ++ split paragraph_sep s2.
Proof.
  change (paragraph_sep ++ s2) with (LF :: LF :: s2).
  induction s1 as [|a|a b l IHl IHbl] using list_ind2.
  - intros _. reflexivity.
  - intros Ha. simpl in Ha.
    assert (Hne : a <> LF) by (intros ->; discriminate).
    assert (Hs : forall r, startswith paragraph_sep (a :: r) = false)
      by (intros r; now apply startswith_sep_other).
    change ([a] ++ LF :: LF :: s2) with (a :: LF :: LF :: s2).
    rewrite (split_other a (LF :: LF :: s2)), (split_other a []) by apply Hs.
    rewrite split_sep. reflexivity.
  - intros Hends. rewrite ends_lf_cons in Hends.
    destruct (startswith paragraph_sep (a :: b :: l)) eqn:E.
    + apply startswith_sep in E as [-> [s' E]]. inversion E; subst.
      change ((LF :: LF :: s') ++ LF :: LF :: s2) with (LF :: LF :: s' ++ LF :: LF :: s2).
      rewrite !split_sep.
      destruct s' as [|c s']; [discriminate|].
      rewrite ends_lf_cons in Hends.
      change (([] :: split paragraph_sep (c :: s')) ++ split paragraph_sep s2)
        with ([] :: split paragraph_sep (c :: s') ++ split paragraph_sep s2).
      f_equal. now apply IHl.
    + rewrite (split_other _ _ E).
      change ((a :: b :: l) ++ LF :: LF :: s2) with (a :: (b :: l) ++ LF :: LF :: s2).
      rewrite split_other.
      * rewrite (IHbl Hends). apply push_app, split_not_nil.
      * now apply startswith_sep_app.
Qed.

Lemma no_sep_short (s : str) : len s < 2 -> no_sep s.
Proof.
  intros H a b E. subst s. unfold len in H.
  rewrite !length_app in H. simpl in H. lia.
Qed.

Lemma no_sep_app_l (a b : str) : no_sep (a ++ b) -> no_sep a.
Proof.
  intros H x y E. apply (H x (y ++ b)). subst a. now rewrite <- !app_assoc.
Qed.

Lemma no_sep_app_r (a b : str) : no_sep (a ++ b) -> no_sep b.
Proof.
  intros H x y E. apply (H (a ++ x) y). subst b. now rewrite <- !app_assoc.
Qed.

Lemma no_sep_startswith (c : ascii) (s : str) :
  no_sep (c :: s) -> startswith paragraph_sep (c :: s) = false.
Proof.
  intros H. destruct (startswith paragraph_sep (c :: s)) eqn:E; [|reflexivity].
  apply startswith_inv in E as [r E]. exfalso. apply (H [] r). exact E.
Qed.

(** A string without separator is one paragraph. *)
Lemma no_sep_split (s : str) : no_sep s -> split paragraph_sep s = [s].
Proof.
  induction s as [|c s IH]; intros H; [reflexivity|].
  rewrite split_other by now apply no_sep_startswith.
  rewrite IH; [reflexivity|]. apply (no_sep_app_r [c] s H).
Qed.

(** The first paragraph is empty when the string starts with a separator,
    and starts like the string otherwise. *)
Lemma split_head (c : ascii) (s : str) :
  (startswith paragraph_sep (c :: s) = true
   /\ exists t, split paragraph_sep (c :: s) = [] :: t)
  \/ (startswith paragraph_sep (c :: s) = false
      /\ exists h t, split paragraph_sep (c :: s) = (c :: h) :: t).
Proof.
  destruct (startswith paragraph_sep (c :: s)) eqn:E.
  - left. split; [reflexivity|].
    apply startswith_sep in E as [-> [s' ->]]. rewrite split_sep. eauto.
  - right. split; [reflexivity|]. rewrite (split_other _ _ E).
    destruct (split paragraph_sep s) as [|h t]; simpl; eauto.
Qed.

Lemma no_sep_cons (a : ascii) (h : str) :
  no_sep h -> (a = LF -> forall y, h <> LF :: y) -> no_sep (a :: h).
Proof.
  intros Hh Ha x y E. destruct x as [|a' x].
  - inversion E; subst. now apply (Ha eq_refl y).
  - inversion E; subst. now apply (Hh x y).
Qed.

(** The paragraphs of a string hold no separator. *)
Lemma split_no_sep (s : str) : Forall no_sep (split paragraph_sep s).
Proof.
  induction s as [|a|a b l IHl IHbl] using list_ind2.
  - constructor; [apply no_sep_short; simpl; lia|constructor].
  - rewrite split_other.
    + constructor; [apply no_sep_short; simpl; lia|constructor].
    + destruct (startswith paragraph_sep [a]) eqn:E; [|reflexivity].
      apply startswith_sep in E as [_ [s' E]]. discriminate.
  - destruct (startswith paragraph_sep (a :: b :: l)) eqn:E.
    + apply startswith_sep in E as [-> [s' E]]. inversion E; subst.
      rewrite split_sep. constructor; [|exact IHl]. apply no_sep_short. simpl. lia.
    + rewrite (split_other _ _ E).
      destruct (split_head b l) as [[Hs [t Ht]]|[Hs (h & t & Ht)]];
        rewrite Ht in *; inversion IHbl; subst; simpl; constructor; auto.
      * apply no_sep_short. simpl. lia.
      * apply no_sep_cons; [assumption|]. intros -> y Hy. inversion Hy; subst.
        pose proof (startswith_app paragraph_sep l) as Hm.
        change (paragraph_sep ++ l) with (LF :: LF :: l) in Hm. congruence.
Qed.

(** No paragraph but the last ends with a line feed. *)
Lemma split_inner_ends (s : str) :
  Forall (fun p => ends_lf p = false) (removelast (split paragraph_sep s)).
Proof.
  induction s as [|a|a b l IHl IHbl] using list_ind2.
  - constructor.
  - rewrite split_other.
    + constructor.
    + destruct (startswith paragraph_sep [a]) eqn:E; [|reflexivity].
      apply startswith_sep in E as [_ [s' E]]. discriminate.
  - destruct (startswith paragraph_sep (a :: b :: l)) eqn:E.
    + apply startswith_sep in E as [-> [s' E]]. inversion E; subst.
      rewrite split_sep.
      destruct (split paragraph_sep s') as [|h t] eqn:Es; [now apply split_not_nil in Es|].
      change (removelast ([] :: h :: t)) with ([] :: removelast (h :: t)).
      constructor; [reflexivity|exact IHl].
    + rewrite (split_other _ _ E).
      destruct (split_head b l) as [[Hs [t Ht]]|[Hs (h & t & Ht)]]; rewrite Ht in *.
      * destruct t as [|p t]; [constructor|].
        change (removelast (push a ([] :: p :: t))) with ([a] :: removelast (p :: t)).
        change (removelast ([] :: p :: t)) with ([] :: removelast (p :: t)) in IHbl.
        inversion IHbl; subst. constructor; [|assumption].
        apply startswith_sep in Hs as [-> _].
        simpl. destruct (Ascii.eqb_spec a LF) as [->|]; [|reflexivity].
        rewrite <- E. symmetry. apply (startswith_app paragraph_sep l).
      * destruct t as [|p t]; [constructor|].
        change (removelast (push a ((b :: h) :: p :: t)))
          with ((a :: b :: h) :: removelast (p :: t)).
        change (removelast ((b :: h) :: p :: t))
          with ((b :: h) :: removelast (p :: t)) in IHbl.
        inversion IHbl; subst. constructor; [|assumption].
        now rewrite ends_lf_cons.
Qed.

(** A translator that works character by character and keeps line feeds
    apart from the other characters keeps the paragraphs. *)
Lemma push_map (f : ascii -> ascii) (c : ascii) (pieces : list str) :
  map (map f) (push c pieces) = push (f c) (map (map f) pieces).
Proof. now destruct pieces. Qed.

Lemma split_map (f : ascii -> ascii) (s : str) :
  (forall c, f c = LF <-> c = LF) ->
  split paragraph_sep (map f s) = map (map f) (split paragraph_sep s).
Proof.
  intros Hf. assert (HLF : f LF = LF) by now apply Hf.
  induction s as [|a|a b l IHl IHbl] using list_ind2.
  - reflexivity.
  - assert (Hs : forall c, startswith paragraph_sep [c] = false).
    { intros c. destruct (startswith paragraph_sep [c]) eqn:E; [|reflexivity].
      apply startswith_sep in E as [_ [s' E]]. discriminate. }
    change (map f [a]) with [f a]. rewrite !split_other by apply Hs. reflexivity.
  - destruct (startswith paragraph_sep (a :: b :: l)) eqn:E.
    + apply startswith_sep in E as [-> [s' E]]. inversion E; subst.
      change (map f (LF :: LF :: s')) with (f LF :: f LF :: map f s').
      rewrite HLF, !split_sep, IHl. reflexivity.
    + rewrite (split_other _ _ E), push_map, <- IHbl.
      change (map f (a :: b :: l)) with (f a :: map f (b :: l)).
      apply split_other.
      destruct (startswith paragraph_sep (f a :: map f (b :: l))) eqn:E'; [|reflexivity].
      apply startswith_sep in E' as [Ha [s' Hb]].
      change (map f (b :: l)) with (f b :: map f l) in Hb.
      assert (Hb' : f b = LF) by congruence.
      apply (proj1 (Hf a)) in Ha. apply (proj1 (Hf b)) in Hb'. subst a b.
      rewrite <- E. symmetry. apply (startswith_app paragraph_sep l).
Qed.

(** ** Stripping *)

Lemma nonblank_app (a b : str) : nonblank (a ++ b) = nonblank a || nonblank b.
Proof. apply existsb_app. Qed.

Lemma nonblank_rev (s : str) : nonblank (rev s) = nonblank s.
Proof.
  induction s as [|c s IH]; [reflexivity|].
  simpl rev. rewrite nonblank_app, IH. simpl. rewrite orb_false_r. apply orb_comm.
Qed.

Lemma lstrip_app (a b : str) : nonblank a = true -> lstrip (a ++ b) = lstrip a ++ b.
Proof.
  induction a as [|c a IH]; [discriminate|]. simpl.
  destruct (isspace c); simpl; auto.
Qed.

Lemma lstrip_space_app (a b : str) :
  forallb isspace a = true -> lstrip (a ++ b) = lstrip b.
Proof.
  induction a as [|c a IH]; [reflexivity|]. simpl.
  destruct (isspace c); simpl; [auto|discriminate].
Qed.

Lemma lstrip_suffix (s : str) : exists pre, s = pre ++ lstrip s.
Proof.
  induction s as [|c s [pre IH]]; [now exists []|]. simpl.
  destruct (isspace c).
  - exists (c :: pre). simpl. now rewrite <- IH.
  - now exists [].
Qed.

Lemma lstrip_head (s r : str) (c : ascii) : lstrip s = c :: r -> isspace c = false.
Proof.
  induction s as [|d s IH]; [discriminate|]. simpl.
  destruct (isspace d) eqn:E; [exact IH|]. intros H. inversion H; subst. exact E.
Qed.

Lemma nonblank_lstrip (s : str) : nonblank (lstrip s) = nonblank s.
Proof.
  induction s as [|c s IH]; [reflexivity|]. simpl.
  destruct (isspace c) eqn:E; simpl; [exact IH|]. now rewrite E.
Qed.

Lemma rstrip_app (a b : str) : nonblank b = true -> rstrip (a ++ b) = a ++ rstrip b.
Proof.
  intros H. unfold rstrip. rewrite rev_app_distr, lstrip_app.
  - now rewrite rev_app_distr, rev_involutive.
  - now rewrite nonblank_rev.
Qed.

Lemma rstrip_space_app (a b : str) :
  forallb isspace b = true -> rstrip (a ++ b) = rstrip a.
Proof.
  intros H. unfold rstrip. rewrite rev_app_distr, lstrip_space_app; [reflexivity|].
  rewrite forallb_forall in *. intros x Hx. apply H. now apply in_rev.
Qed.

Lemma rstrip_prefix (s : str) : exists suf, s = rstrip s ++ suf.
Proof.
  unfold rstrip. destruct (lstrip_suffix (rev s)) as [pre H].
  exists (rev pre). rewrite <- rev_app_distr, <- H. now rewrite rev_involutive.
Qed.

Lemma nonblank_rstrip (s : str) : nonblank (rstrip s) = nonblank s.
Proof. unfold rstrip. now rewrite nonblank_rev, nonblank_lstrip, nonblank_rev. Qed.

Lemma nonblank_strip (s : str) : nonblank (strip s) = nonblank s.
Proof. unfold strip. now rewrite nonblank_lstrip, nonblank_rstrip. Qed.

(** [s.strip()] is truthy when [s] holds a character that is not
    whitespace. *)
Lemma truthy_strip (s : str) : truthy (strip s) = nonblank s.
Proof.
  rewrite <- nonblank_strip. unfold strip.
  destruct (lstrip (rstrip s)) as [|c r] eqn:E; [reflexivity|].
  apply lstrip_head in E. simpl. now rewrite E.
Qed.

Lemma isspace_LF : isspace LF = true.
Proof. reflexivity. Qed.

Lemma ends_lf_rstrip (s : str) : ends_lf (rstrip s) = false.
Proof.
  unfold rstrip. destruct (lstrip (rev s)) as [|c r] eqn:E; [reflexivity|].
  apply lstrip_head in E. simpl rev. rewrite ends_lf_app_last.
  destruct (Ascii.eqb_spec c LF) as [->|]; [|reflexivity].
  rewrite isspace_LF in E. discriminate.
Qed.

Lemma ends_lf_lstrip (s : str) : ends_lf s = false -> ends_lf (lstrip s) = false.
Proof.
  intros H. destruct (lstrip s) as [|c r] eqn:E; [reflexivity|].
  destruct (lstrip_suffix s) as [pre Hs]. rewrite E in Hs.
  rewrite Hs, ends_lf_app in H by discriminate. exact H.
Qed.

Lemma ends_lf_strip (s : str) : ends_lf (strip s) = false.
Proof. apply ends_lf_lstrip, ends_lf_rstrip. Qed.

Lemma ends_lf_map (f : ascii -> ascii) (s : str) :
  (forall c, f c = LF <-> c = LF) -> ends_lf (map f s) = ends_lf s.
Proof.
  intros Hf. induction s as [|c s IH]; [reflexivity|].
  destruct s as [|d s].
  - change (ends_lf (map f [c])) with (Ascii.eqb (f c) LF).
    change (ends_lf [c]) with (Ascii.eqb c LF).
    destruct (Ascii.eqb_spec (f c) LF) as [E|E], (Ascii.eqb_spec c LF) as [E'|E'];
      try reflexivity.
    + apply (proj1 (Hf c)) in E. contradiction.
    + apply (proj2 (Hf c)) in E'. contradiction.
  - change (map f (c :: d :: s)) with (f c :: f d :: map f s).
    rewrite !ends_lf_cons. exact IH.
Qed.

Lemma no_sep_lstrip (s : str) : no_sep s -> no_sep (lstrip s).
Proof.
  intros H. destruct (lstrip_suffix s) as [pre E]. rewrite E in H.
  now apply no_sep_app_r in H.
Qed.

Lemma no_sep_rstrip (s : str) : no_sep s -> no_sep (rstrip s).
Proof.
  intros H. destruct (rstrip_prefix s) as [suf E]. rewrite E in H.
  now apply no_sep_app_l in H.
Qed.

(** ** Chunks *)

Lemma Forall_removelast (A : Type) (P : A -> Prop) (l : list A) :
  Forall P l -> Forall P (removelast l).
Proof.
  induction 1 as [|x l Hx Hl IH]; [constructor|].
  destruct l; [constructor|]. change (Forall P (x :: removelast (a :: l))).
  now constructor.
Qed.

Lemma well_formed_app_l (g rest : list str) : well_formed (g ++ rest) -> well_formed g.
Proof.
  intros (H1 & H2 & H3). apply Forall_app in H1 as [H1 _]. apply Forall_app in H2 as [H2 _].
  repeat split; auto.
  destruct rest as [|p rest]; [now rewrite app_nil_r in H3|].
  rewrite removelast_app in H3 by discriminate.
  apply Forall_app in H3 as [H3 _]. now apply Forall_removelast.
Qed.

Lemma well_formed_app_r (g rest : list str) : well_formed (g ++ rest) -> well_formed rest.
Proof.
  intros (H1 & H2 & H3). apply Forall_app in H1 as [_ H1]. apply Forall_app in H2 as [_ H2].
  repeat split; auto.
  destruct rest as [|p rest]; [constructor|].
  rewrite removelast_app in H3 by discriminate.
  now apply Forall_app in H3 as [_ H3].
Qed.

Lemma well_formed_cons (p q : str) (r : list str) :
  well_formed (p :: q :: r) ->
  no_sep p /\ nonblank p = true /\ ends_lf p = false /\ well_formed (q :: r).
Proof.
  intros H. pose proof (well_formed_app_r [p] (q :: r) H) as Hr.
  destruct H as (H1 & H2 & H3).
  change (removelast (p :: q :: r)) with (p :: removelast (q :: r)) in H3.
  inversion H1; inversion H2; inversion H3; subst. auto.
Qed.

Lemma well_formed_single (p : str) :
  well_formed [p] -> no_sep p /\ nonblank p = true.
Proof. intros (H1 & H2 & _). inversion H1; inversion H2; subst. auto. Qed.

Lemma chunk_of_join (g : list str) :
  g <> [] -> chunk_of g = join paragraph_sep g ++ paragraph_sep.
Proof.
  induction g as [|p g IH]; [congruence|]. intros _.
  destruct g as [|q r].
  - unfold chunk_of. simpl. now rewrite app_nil_r.
  - change (chunk_of (p :: q :: r)) with ((p ++ paragraph_sep) ++ chunk_of (q :: r)).
    change (join paragraph_sep (p :: q :: r))
      with (p ++ paragraph_sep ++ join paragraph_sep (q :: r)).
    rewrite IH by discriminate. now rewrite <- !app_assoc.
Qed.

Lemma chunk_of_snoc (g : list str) (p : str) :
  chunk_of (g ++ [p]) = chunk_of g ++ p ++ paragraph_sep.
Proof.
  unfold chunk_of. rewrite flat_map_app. simpl. now rewrite app_nil_r.
Qed.

Lemma nonblank_join (g : list str) :
  well_formed g -> g <> [] -> nonblank (join paragraph_sep g) = true.
Proof.
  induction g as [|p g IH]; [congruence|]. intros H _.
  destruct g as [|q r].
  - now apply well_formed_single in H.
  - apply well_formed_cons in H as (_ & Hp & _ & _).
    change (join paragraph_sep (p :: q :: r))
      with (p ++ paragraph_sep ++ join paragraph_sep (q :: r)).
    now rewrite nonblank_app, Hp.
Qed.

Lemma paragraph_count_no_sep (s : str) : no_sep s -> paragraph_count s = 1.
Proof. intros H. unfold paragraph_count. now rewrite no_sep_split. Qed.

Lemma paragraph_count_app_sep (s1 s2 : str) :
  ends_lf s1 = false ->
  paragraph_count (s1 ++ paragraph_sep ++ s2) = paragraph_count s1 + paragraph_count s2.
Proof.
  intros H. unfold paragraph_count. now rewrite split_app_sep, length_app.
Qed.

Lemma count_rstrip_join (g : list str) :
  well_formed g -> g <> [] ->
  paragraph_count (rstrip (join paragraph_sep g)) = List.length g.
Proof.
  induction g as [|p g IH]; [congruence|]. intros H _.
  destruct g as [|q r].
  - apply well_formed_single in H as [H _].
    apply paragraph_count_no_sep. now apply no_sep_rstrip.
  - apply well_formed_cons in H as (Hsep & _ & Hends & Hrest).
    change (join paragraph_sep (p :: q :: r))
      with (p ++ paragraph_sep ++ join paragraph_sep (q :: r)).
    rewrite app_assoc, rstrip_app by (apply nonblank_join; [assumption|discriminate]).
    rewrite <- app_assoc, paragraph_count_app_sep by assumption.
    rewrite IH by (assumption || discriminate).
    now rewrite paragraph_count_no_sep.
Qed.

(** A stripped chunk of well-formed paragraphs has as many paragraphs as
    were accumulated. *)
Lemma count_strip_chunk (g : list str) :
  well_formed g -> g <> [] ->
  paragraph_count (strip (chunk_of g)) = List.length g.
Proof.
  intros H Hne. rewrite chunk_of_join by assumption.
  unfold strip. rewrite rstrip_space_app by reflexivity.
  destruct g as [|p [|q r]]; [congruence| |].
  - apply well_formed_single in H as [H _].
    apply paragraph_count_no_sep. now apply no_sep_lstrip, no_sep_rstrip.
  - pose proof H as Hwf. apply well_formed_cons in H as (Hsep & Hp & Hends & Hrest).
    change (join paragraph_sep (p :: q :: r))
      with (p ++ paragraph_sep ++ join paragraph_sep (q :: r)).
    rewrite app_assoc, rstrip_app by (apply nonblank_join; [assumption|discriminate]).
    rewrite <- app_assoc, lstrip_app by assumption.
    rewrite paragraph_count_app_sep by now apply ends_lf_lstrip.
    rewrite count_rstrip_join by (assumption || discriminate).
    now rewrite paragraph_count_no_sep by now apply no_sep_lstrip.
Qed.

Lemma nonblank_chunk (g : list str) :
  well_formed g -> g <> [] -> nonblank (chunk_of g) = true.
Proof.
  intros H Hne. rewrite chunk_of_join, nonblank_app, nonblank_join by assumption.
  reflexivity.
Qed.

(** Chunks that do not end with a line feed keep their paragraphs apart
    when joined. *)
Lemma paragraph_count_join (parts : list str) :
  parts <> [] -> Forall (fun c => ends_lf c = false) parts ->
  paragraph_count (join paragraph_sep parts) = total parts.
Proof.
  induction parts as [|p parts IH]; [congruence|]. intros _ H.
  inversion H as [|x l Hp Hrest]; subst.
  destruct parts as [|q r].
  - unfold total. simpl. lia.
  - change (join paragraph_sep (p :: q :: r))
      with (p ++ paragraph_sep ++ join paragraph_sep (q :: r)).
    rewrite paragraph_count_app_sep by assumption.
    rewrite IH by (assumption || discriminate). reflexivity.
Qed.

(** ** Chunking with a mock translator *)

Section MockChunking.
Context {L : LanguageEnum}.
Variable f : ascii -> ascii.
Hypothesis f_keeps_lines : forall c, f c = LF <-> c = LF.

Lemma paragraph_count_map (s : str) : paragraph_count (map f s) = paragraph_count s.
Proof. unfold paragraph_count. now rewrite split_map, length_map. Qed.

Lemma total_snoc (parts : list str) (c : str) :
  total (parts ++ [c]) = total parts + paragraph_count c.
Proof. unfold total. rewrite map_app, list_sum_app. simpl. lia. Qed.

Lemma flush_mock (code : str) (parts g : list str) (w : World) :
  well_formed g -> Forall (fun c => ends_lf c = false) parts ->
  exists parts' w',
    flush (mock f) code parts (chunk_of g) w = (Return parts', w')
    /\ Forall (fun c => ends_lf c = false) parts'
    /\ total parts' = total parts + List.length g.
Proof.
  intros Hg Hparts. unfold flush. rewrite truthy_strip.
  destruct g as [|p g].
  - exists parts, w. simpl. auto.
  - rewrite nonblank_chunk by (assumption || discriminate).
    unfold bind, translate, mock, ret. cbn [req_text].
    eexists _, _. split; [reflexivity|]. split.
    + apply Forall_app. split; [assumption|]. constructor; [|constructor].
      rewrite ends_lf_map by assumption. apply ends_lf_strip.
    + rewrite total_snoc, paragraph_count_map.
      now rewrite count_strip_chunk by (assumption || discriminate).
Qed.

Lemma chunk_loop_mock (code : str) (rest g parts : list str) (w : World) :
  well_formed (g ++ rest) -> Forall (fun c => ends_lf c = false) parts ->
  exists parts' g' w',
    chunk_loop (mock f) code rest parts (chunk_of g) w = (Return (parts', chunk_of g'), w')
    /\ well_formed g'
    /\ Forall (fun c => ends_lf c = false) parts'
    /\ total parts' + List.length g' = total parts + List.length g + List.length rest.
Proof.
  revert g parts w. induction rest as [|p rest IH]; intros g parts w Hwf Hparts.
  - exists parts, g, w. rewrite app_nil_r in Hwf.
    split; [reflexivity|]. split; [assumption|]. split; [assumption|]. simpl. lia.
  - cbn [chunk_loop].
    destruct (len (chunk_of g) + len p + 2 <=? max_chunk_size).
    + rewrite <- chunk_of_snoc.
      destruct (IH (g ++ [p]) parts w) as (parts' & g' & w' & Hrun & Hg' & Hp' & Hsum);
        [now rewrite <- app_assoc|assumption|].
      exists parts', g', w'.
      split; [assumption|]. split; [assumption|]. split; [assumption|].
      rewrite length_app in Hsum. simpl in *. lia.
    + destruct (flush_mock code parts g w) as (parts1 & w1 & Hflush & Hp1 & Hsum1);
        [now apply well_formed_app_l in Hwf|assumption|].
      unfold bind. rewrite Hflush.
      replace (p ++ paragraph_sep) with (chunk_of [p])
        by (unfold chunk_of; simpl; now rewrite app_nil_r).
      destruct (IH [p] parts1 w1) as (parts' & g' & w' & Hrun & Hg' & Hp' & Hsum);
        [now apply well_formed_app_r in Hwf|assumption|].
      exists parts', g', w'.
      split; [assumption|]. split; [assumption|]. split; [assumption|].
      simpl in *. lia.
Qed.

(** With such a mock, a text without blank paragraph comes back with its
    number of paragraphs. *)
Lemma long_text_mock (content : str) (target : SupportedLanguage) (w : World) :
  target <> ENGLISH ->
  max_chunk_size < len content ->
  forallb nonblank (split paragraph_sep content) = true ->
  exists out w',
    _translate_with_google (mock f) content target w = (Return out, w')
    /\ paragraph_count out = paragraph_count content.
Proof.
  intros Htarget Hlong Hblank.
  unfold _translate_with_google. rewrite (language_eqb_neq _ _ Htarget).
  rewrite (proj2 (Nat.leb_gt _ _) Hlong).
  set (code := if language_eqb target URDU then py "ur" else py "en").
  assert (Hwf : well_formed ([] ++ split paragraph_sep content)).
  { repeat split.
    - apply split_no_sep.
    - apply Forall_forall. now apply forallb_forall.
    - apply split_inner_ends. }
  destruct (chunk_loop_mock code (split paragraph_sep content) [] [] w Hwf (Forall_nil _))
    as (parts & g & w1 & Hloop & Hg & Hparts & Hsum).
  destruct (flush_mock code parts g w1 Hg Hparts) as (final & w2 & Hflush & Hfinal & Hsum2).
  change (chunk_of []) with (@nil ascii) in Hloop.
  unfold try_except, bind. rewrite Hloop. cbn [fst snd]. rewrite Hflush.
  eexists _, _. split; [reflexivity|].
  assert (Htotal : total final = paragraph_count content).
  { unfold paragraph_count. unfold total in Hsum at 2. simpl in Hsum. lia. }
  rewrite paragraph_count_join; [exact Htotal| |exact Hfinal].
  intros ->. unfold total in Htotal. simpl in Htotal.
  unfold paragraph_count in Htotal.
  pose proof (split_not_nil content). destruct (split paragraph_sep content); [congruence|].
  discriminate.
Qed.

End MockChunking.

Section Chunking.
Context {L : LanguageEnum}.

(** C1 (amended). For a non-English target language: a text of at most
    4500 characters costs exactly one provider call, the text itself under
    the code of the language; and a longer text none of whose paragraphs
    is blank, translated by a mock that works character by character and
    maps line feeds, and only them, to line feeds (so it keeps lengths and
    line structure), comes back with as many paragraphs as it had. *)
Theorem chunking_keeps_paragraph_count (content : str) (target : SupportedLanguage)
    (w : World) :
  target <> ENGLISH ->
  (forall provider,
     len content <= max_chunk_size ->
     exists o,
       _translate_with_google provider content target w
       = (o, with_request w {| req_target := lang_code_of target; req_text := content |}))
  /\ (forall f,
        (forall c, f c = LF <-> c = LF) ->
        max_chunk_size < len content ->
        forallb nonblank (split paragraph_sep content) = true ->
        exists out w',
          _translate_with_google (mock f) content target w = (Return out, w')
          /\ paragraph_count out = paragraph_count content).
Proof.
  intros Htarget. split.
  - intros provider Hshort. unfold _translate_with_google.
    rewrite (language_eqb_neq _ _ Htarget), (proj2 (Nat.leb_le _ _) Hshort).
    fold (lang_code_of target). unfold try_except, translate.
    destruct (provider _ _); eexists; reflexivity.
  - intros f Hf Hlong Hblank. now apply long_text_mock.
Qed.

End Chunking.

(** ** Chunking on concrete texts *)

(** C1, the claim as stated fails.  With the identity as mock translator, a
    text of two paragraphs, the first one empty, comes back as one
    paragraph: a chunk is stripped before it is sent.  With a mock that
    keeps lengths but not line feeds, a text of three paragraphs without
    blank one comes back as two. *)
Lemma paragraph_count_is_not_kept :
  (max_chunk_size < len blank_first
   /\ paragraph_count blank_first = 2
   /\ exists out w',
        _translate_with_google echo blank_first URDU init = (Return out, w')
        /\ paragraph_count out = 1)
  /\ (max_chunk_size < len two_in_a_chunk
      /\ paragraph_count two_in_a_chunk = 3
      /\ (forall s, len (map (fun _ => "x"%char) s) = len s)
      /\ exists out w',
           _translate_with_google blot two_in_a_chunk URDU init = (Return out, w')
           /\ paragraph_count out = 2).
Proof.
  split.
  - split; [apply Nat.ltb_lt; vm_compute; reflexivity|].
    split; [vm_compute; reflexivity|].
    eexists _, _. split; vm_compute; reflexivity.
  - split; [apply Nat.ltb_lt; vm_compute; reflexivity|].
    split; [vm_compute; reflexivity|].
    split; [intros s; apply length_map|].
    eexists _, _. split; vm_compute; reflexivity.
Qed.

Lemma chunking_keeps_paragraph_count_witness :
  (exists o,
     _translate_with_google echo (py "Hello world.") URDU init
     = (o, with_request init {| req_target := py "ur"; req_text := py "Hello world." |}))
  /\ exists out w',
       _translate_with_google echo two_halves URDU init = (Return out, w')
       /\ paragraph_count out = paragraph_count two_halves.
Proof.
  assert (Hurdu : @URDU TwoLanguages.enum <> ENGLISH) by discriminate.
  split.
  - destruct (chunking_keeps_paragraph_count (py "Hello world.") URDU init Hurdu)
      as [Hshort _].
    apply (Hshort echo). apply Nat.leb_le. vm_compute. reflexivity.
  - destruct (chunking_keeps_paragraph_count two_halves URDU init Hurdu) as [_ Hlong].
    apply (Hlong (fun c => c)).
    + intros c. split; intros H; exact H.
    + apply Nat.ltb_lt. vm_compute. reflexivity.
    + vm_compute. reflexivity.
Defined.

(** ** A translation follows its plan *)

Section Plan.
Context {L : LanguageEnum}.
Variable provider : Provider.

Lemma with_requests_nil (w : World) : with_requests w [] = w.
Proof. destruct w. unfold with_requests. simpl. now rewrite app_nil_r. Qed.

Lemma with_requests_app (w : World) (a b : list Request) :
  with_requests (with_requests w a) b = with_requests w (a ++ b).
Proof. unfold with_requests. simpl. now rewrite app_assoc. Qed.

Lemma with_request_one (w : World) (r : Request) : with_request w r = with_requests w [r].
Proof. reflexivity. Qed.

Lemma flush_plan (code : str) (parts : list str) (chunk : str) (w : World) :
  flush provider code parts chunk w
  = match ask_all provider code (requests w) (flush_text chunk) with
    | (ts, sent, None) => (Return (parts ++ ts), with_requests w sent)
    | (_, sent, Some reason) => (Raise (ProviderException reason), with_requests w sent)
    end.
Proof.
  unfold flush, flush_text. destruct (truthy (strip chunk)).
  - unfold bind, translate, ret. cbn [ask_all].
    destruct (provider _ _); reflexivity.
  - cbn [ask_all]. unfold ret. now rewrite app_nil_r, with_requests_nil.
Qed.

Lemma ask_all_app (code : str) (history : list Request) (a b : list str) :
  ask_all provider code history (a ++ b)
  = match ask_all provider code history a with
    | (ts, sent, Some reason) => (ts, sent, Some reason)
    | (ts, sent, None) =>
        let '(ts', sent', failure) := ask_all provider code (history ++ sent) b in
        (ts ++ ts', sent ++ sent', failure)
    end.
Proof.
  revert history. induction a as [|text a IH]; intros history.
  - cbn [app ask_all]. rewrite app_nil_r.
    now destruct (ask_all provider code history b) as [[ts sent] failure].
  - cbn [app ask_all]. destruct (provider _ _) as [t|reason]; [|reflexivity].
    rewrite IH.
    destruct (ask_all provider code (history ++ _) a) as [[ts sent] [reason|]];
      [reflexivity|].
    cbn [app]. rewrite <- app_assoc. cbn [app].
    now destruct (ask_all provider code _ b) as [[ts' sent'] failure].
Qed.

Lemma chunk_loop_plan (code : str) (paragraphs parts : list str) (chunk : str)
    (w : World) :
  chunk_loop provider code paragraphs parts chunk w
  = let (chunks, final) := plan_loop paragraphs chunk in
    match ask_all provider code (requests w) chunks with
    | (ts, sent, None) => (Return (parts ++ ts, final), with_requests w sent)
    | (_, sent, Some reason) => (Raise (ProviderException reason), with_requests w sent)
    end.
Proof.
  revert parts chunk w. induction paragraphs as [|para rest IH]; intros parts chunk w.
  - cbn [chunk_loop plan_loop ask_all]. unfold ret.
    now rewrite app_nil_r, with_requests_nil.
  - cbn [chunk_loop plan_loop].
    destruct (len chunk + len para + 2 <=? max_chunk_size); [apply IH|].
    unfold bind. rewrite flush_plan.
    destruct (plan_loop rest (para ++ paragraph_sep)) as [chunks final] eqn:Eplan.
    rewrite ask_all_app.
    destruct (ask_all provider code (requests w) (flush_text chunk))
      as [[ts sent] [reason|]]; [reflexivity|].
    rewrite IH, Eplan. cbn [requests with_requests].
    destruct (ask_all provider code (requests w ++ sent) chunks)
      as [[ts' sent'] [reason|]]; rewrite with_requests_app; [reflexivity|].
    now rewrite app_assoc.
Qed.

(** The translator does what the plan says. *)
Lemma follows_plan (content : str) (target : SupportedLanguage)
    (w : World) :
  _translate_with_google provider content target w
  = if language_eqb target ENGLISH then (Return content, w)
    else
      match ask_all provider (lang_code_of target) (requests w) (planned_chunks content) with
      | (ts, sent, None) => (Return (join paragraph_sep ts), with_requests w sent)
      | (_, sent, Some reason) =>
          (Raise (RuntimeError (py "Translation failed: " ++ reason)),
           with_requests w sent)
      end.
Proof.
  unfold _translate_with_google, planned_chunks. fold (lang_code_of target).
  destruct (language_eqb target ENGLISH); [reflexivity|].
  unfold try_except. destruct (len content <=? max_chunk_size).
  - unfold translate. cbn [ask_all]. destruct (provider _ _); reflexivity.
  - unfold bind. rewrite chunk_loop_plan.
    destruct (plan_loop (split paragraph_sep content) []) as [chunks final].
    rewrite ask_all_app.
    destruct (ask_all provider (lang_code_of target) (requests w) chunks)
      as [[ts sent] [reason|]]; [reflexivity|].
    cbn [fst snd]. rewrite flush_plan. cbn [requests with_requests app].
    destruct (ask_all provider (lang_code_of target) (requests w ++ sent) (flush_text final))
      as [[ts' sent'] [reason|]]; rewrite with_requests_app; reflexivity.
Qed.

(** X1. A translation follows a plan fixed by the text alone: to English it
    returns the text and sends nothing; to another language it sends the
    planned chunks in order under the code of the language, stops at the
    first request that fails and raises [RuntimeError] with the reason of
    that failure, and otherwise returns the translations joined by the
    paragraph separator.  Nothing but the list of requests changes. *)
Theorem translation_follows_plan (content : str) (target : SupportedLanguage)
    (w : World) :
  _translate_with_google provider content target w
  = if language_eqb target ENGLISH then (Return content, w)
    else
      match ask_all provider (lang_code_of target) (requests w) (planned_chunks content) with
      | (ts, sent, None) => (Return (join paragraph_sep ts), with_requests w sent)
      | (_, sent, Some reason) =>
          (Raise (RuntimeError (py "Translation failed: " ++ reason)),
           with_requests w sent)
      end.
Proof. apply follows_plan. Qed.

End Plan.

(** ** What is sent to the provider *)

Section Sent.
Context {L : LanguageEnum}.
Variable provider : Provider.

Lemma ask_all_sent (code : str) (history : list Request) (texts : list str) :
  forall ts sent failure,
    ask_all provider code history texts = (ts, sent, failure) ->
    exists k, sent = map (fun text => {| req_target := code; req_text := text |})
                         (firstn k texts).
Proof.
  revert history. induction texts as [|text rest IH]; intros history ts sent failure H.
  - inversion H; subst. now exists 0.
  - cbn [ask_all] in H. destruct (provider _ _) as [t|reason].
    + destruct (ask_all provider code _ rest) as [[ts' sent'] failure'] eqn:E.
      inversion H; subst. destruct (IH _ _ _ _ E) as [k ->]. now exists (S k).
    + inversion H; subst. now exists 1.
Qed.

Lemma ask_all_answered (code : str) (history : list Request) (texts : list str) :
  forall ts sent failure,
    ask_all provider code history texts = (ts, sent, failure) ->
    match failure with
    | None => answered provider history sent ts
    | Some reason =>
        exists pre r,
          sent = pre ++ [r]
          /\ answered provider history pre ts
          /\ provider (history ++ pre) r = Failed reason
    end.
Proof.
  revert history. induction texts as [|text rest IH]; intros history ts sent failure H.
  - inversion H; subst. exact I.
  - cbn [ask_all] in H. destruct (provider _ _) as [t|reason] eqn:Ep.
    + destruct (ask_all provider code _ rest) as [[ts' sent'] failure'] eqn:E.
      inversion H; subst. specialize (IH _ _ _ _ E).
      destruct failure as [reason|].
      * destruct IH as (pre & r & -> & Hpre & Hfail).
        exists ({| req_target := code; req_text := text |} :: pre), r.
        split; [reflexivity|]. split; [now split|].
        rewrite <- app_assoc in Hfail. exact Hfail.
      * now split.
    + inversion H; subst. exists [], {| req_target := code; req_text := text |}.
      split; [reflexivity|]. split; [exact I|]. now rewrite app_nil_r.
Qed.

(** X2. No retry and no partial result: when a translation raises, the
    last request sent is one the provider failed, every request before it
    was answered, and the error carries the reason of that failure; when it
    returns, every request sent was answered and the result is the answers
    joined by the paragraph separator. *)
Theorem translation_stops_at_first_failure (content : str) (target : SupportedLanguage)
    (w w' : World) (o : outcome str) :
  _translate_with_google provider content target w = (o, w') ->
  target <> ENGLISH ->
  exists sent ts,
    requests w' = requests w ++ sent
    /\ match o with
       | Return out => answered provider (requests w) sent ts /\ out = join paragraph_sep ts
       | Raise e =>
           exists pre r reason,
             sent = pre ++ [r]
             /\ answered provider (requests w) pre ts
             /\ provider (requests w ++ pre) r = Failed reason
             /\ e = RuntimeError (py "Translation failed: " ++ reason)
       end.
Proof.
  intros H Htarget. rewrite follows_plan, (language_eqb_neq _ _ Htarget) in H.
  destruct (ask_all provider (lang_code_of target) (requests w) (planned_chunks content))
    as [[ts sent] failure] eqn:E.
  pose proof (ask_all_answered _ _ _ _ _ _ E) as Ha.
  exists sent, ts. destruct failure as [reason|]; inversion H; subst.
  - split; [reflexivity|]. destruct Ha as (pre & r & Hs & Hpre & Hfail).
    exists pre, r, reason. auto.
  - split; [reflexivity|]. auto.
Qed.

Lemma Forall_take (A : Type) (P : A -> Prop) (k : nat) (l : list A) :
  Forall P l -> Forall P (firstn k l).
Proof.
  revert k. induction l as [|x l IH]; intros [|k] H; simpl; try constructor;
    inversion H; subst; auto.
Qed.

Lemma len_lstrip (s : str) : len (lstrip s) <= len s.
Proof.
  destruct (lstrip_suffix s) as [pre H]. rewrite H at 2. unfold len.
  rewrite length_app. lia.
Qed.

Lemma len_rstrip (s : str) : len (rstrip s) <= len s.
Proof.
  destruct (rstrip_prefix s) as [suf H]. rewrite H at 2. unfold len.
  rewrite length_app. lia.
Qed.

Lemma len_strip (s : str) : len (strip s) <= len s.
Proof.
  unfold strip. etransitivity; [apply len_lstrip|apply len_rstrip].
Qed.

Lemma strip_sep (s : str) : strip (s ++ paragraph_sep) = strip s.
Proof. unfold strip. now rewrite rstrip_space_app. Qed.

Lemma flush_text_within (chunk : str) :
  within_limit chunk -> Forall (fun c => len c <= max_chunk_size) (flush_text chunk).
Proof.
  intros H. unfold flush_text. destruct (truthy (strip chunk)); [|constructor].
  constructor; [|constructor].
  destruct H as [->|(c & -> & Hc)].
  - apply Nat.le_0_l.
  - rewrite strip_sep. etransitivity; [apply len_strip|exact Hc].
Qed.

Lemma plan_loop_within (paragraphs : list str) (chunk : str) :
  Forall (fun p => len p <= max_chunk_size) paragraphs ->
  within_limit chunk ->
  Forall (fun c => len c <= max_chunk_size) (fst (plan_loop paragraphs chunk))
  /\ within_limit (snd (plan_loop paragraphs chunk)).
Proof.
  revert chunk. induction paragraphs as [|para rest IH]; intros chunk Hps Hchunk.
  - split; [constructor|exact Hchunk].
  - inversion Hps as [|x l Hpara Hrest]; subst. cbn [plan_loop].
    destruct (Nat.leb_spec (len chunk + len para + 2) max_chunk_size) as [Hfit|Hfull].
    + apply IH; [assumption|]. right. exists (chunk ++ para).
      split; [now rewrite app_assoc|]. unfold len in *. rewrite length_app. lia.
    + destruct (IH (para ++ paragraph_sep) Hrest) as [Hcs Hfinal].
      { right. now exists para. }
      destruct (plan_loop rest (para ++ paragraph_sep)) as [chunks final].
      cbn [fst snd] in *. split; [|exact Hfinal].
      apply Forall_app. split; [now apply flush_text_within|exact Hcs].
Qed.

Lemma planned_chunks_within (content : str) :
  Forall (fun p => len p <= max_chunk_size) (split paragraph_sep content) ->
  Forall (fun c => len c <= max_chunk_size) (planned_chunks content).
Proof.
  intros H. unfold planned_chunks.
  destruct (Nat.leb_spec (len content) max_chunk_size) as [Hshort|Hlong].
  - constructor; [exact Hshort|constructor].
  - destruct (plan_loop_within (split paragraph_sep content) [] H) as [Hcs Hfinal];
      [now left|].
    destruct (plan_loop (split paragraph_sep content) []) as [chunks final].
    cbn [fst snd] in *. apply Forall_app. split; [exact Hcs|].
    now apply flush_text_within.
Qed.

(** X3. The size limit of the provider is kept whenever it can be: if no
    paragraph of the text is longer than 4500 characters, no request of
    the translation carries more than 4500 characters, whatever the
    provider answers. *)
Theorem requests_within_limit (content : str) (target : SupportedLanguage) (w : World) :
  forallb (fun p => len p <=? max_chunk_size) (split paragraph_sep content) = true ->
  exists sent,
    requests (snd (_translate_with_google provider content target w)) = requests w ++ sent
    /\ Forall (fun r => len (req_text r) <= max_chunk_size) sent.
Proof.
  intros H. rewrite follows_plan.
  destruct (language_eqb target ENGLISH).
  - exists []. split; [now rewrite app_nil_r|constructor].
  - destruct (ask_all provider (lang_code_of target) (requests w) (planned_chunks content))
      as [[ts sent] failure] eqn:E.
    exists sent. split; [now destruct failure|].
    destruct (ask_all_sent _ _ _ _ _ _ E) as [k ->].
    apply Forall_map. cbn [req_text]. apply Forall_take.
    apply planned_chunks_within. apply Forall_forall. intros p Hp.
    rewrite forallb_forall in H. now apply Nat.leb_le, H.
Qed.

End Sent.

(** ** How many chunks *)

Lemma truthy_app_sep (a : str) : truthy (a ++ paragraph_sep) = true.
Proof. now destruct a. Qed.

Lemma flush_text_length (chunk : str) :
  List.length (flush_text chunk) <= Nat.b2n (truthy chunk).
Proof.
  unfold flush_text. destruct chunk as [|c s]; [apply Nat.le_refl|].
  destruct (truthy (strip (c :: s))); simpl; lia.
Qed.

Lemma plan_loop_length (paragraphs : list str) (chunk : str) :
  List.length (fst (plan_loop paragraphs chunk))
    + Nat.b2n (truthy (snd (plan_loop paragraphs chunk)))
  <= List.length paragraphs + Nat.b2n (truthy chunk).
Proof.
  revert chunk. induction paragraphs as [|para rest IH]; intros chunk.
  - simpl. lia.
  - cbn [plan_loop]. destruct (len chunk + len para + 2 <=? max_chunk_size).
    + specialize (IH (chunk ++ para ++ paragraph_sep)).
      assert (Ht : truthy (chunk ++ para ++ paragraph_sep) = true)
        by (rewrite app_assoc; apply truthy_app_sep).
      rewrite Ht in IH. simpl in *. lia.
    + specialize (IH (para ++ paragraph_sep)). rewrite truthy_app_sep in IH.
      pose proof (flush_text_length chunk) as Hf.
      destruct (plan_loop rest (para ++ paragraph_sep)) as [chunks final].
      cbn [fst snd] in *. rewrite length_app. simpl in *. lia.
Qed.

Lemma planned_chunks_length (content : str) :
  List.length (planned_chunks content) <= paragraph_count content.
Proof.
  unfold planned_chunks, paragraph_count.
  destruct (len content <=? max_chunk_size).
  - pose proof (split_not_nil content).
    destruct (split paragraph_sep content); [congruence|simpl; lia].
  - pose proof (plan_loop_length (split paragraph_sep content) []) as H.
    destruct (plan_loop (split paragraph_sep content) []) as [chunks final].
    cbn [fst snd] in H. pose proof (flush_text_length final).
    rewrite length_app. simpl in H. lia.
Qed.

Section Calls.
Context {L : LanguageEnum}.
Variable provider : Provider.

(** X4. A translation never costs more provider calls than the text has
    paragraphs, whatever the provider answers and whether it returns or
    raises. *)
Theorem calls_at_most_paragraphs (content : str) (target : SupportedLanguage) (w : World) :
  exists sent,
    requests (snd (_translate_with_google provider content target w)) = requests w ++ sent
    /\ List.length sent <= paragraph_count content.
Proof.
  rewrite follows_plan. destruct (language_eqb target ENGLISH).
  - exists []. split; [now rewrite app_nil_r|apply Nat.le_0_l].
  - destruct (ask_all provider (lang_code_of target) (requests w) (planned_chunks content))
      as [[ts sent] failure] eqn:E.
    exists sent. split; [now destruct failure|].
    destruct (ask_all_sent _ _ _ _ _ _ _ E) as [k ->].
    rewrite length_map, length_firstn.
    pose proof (planned_chunks_length content). lia.
Qed.

End Calls.

(** ** A lossless round trip *)

Lemma join_cons (p q : str) (r : list str) :
  join paragraph_sep (p :: q :: r) = p ++ paragraph_sep ++ join paragraph_sep (q :: r).
Proof. reflexivity. Qed.

Lemma join_push (c : ascii) (pieces : list str) :
  pieces <> [] -> join paragraph_sep (push c pieces) = c :: join paragraph_sep pieces.
Proof.
  destruct pieces as [|p [|q r]]; [congruence| |]; intros _; reflexivity.
Qed.

(** Splitting loses nothing: the paragraphs, joined, are the text. *)
Lemma join_split (s : str) : join paragraph_sep (split paragraph_sep s) = s.
Proof.
  induction s as [|a|a b l IHl IHbl] using list_ind2.
  - reflexivity.
  - rewrite split_other; [reflexivity|].
    destruct (startswith paragraph_sep [a]) eqn:E; [|reflexivity].
    apply startswith_sep in E as [_ [s' E]]. discriminate.
  - destruct (startswith paragraph_sep (a :: b :: l)) eqn:E.
    + apply startswith_sep in E as [-> [s' E]]. inversion E; subst.
      rewrite split_sep.
      destruct (split paragraph_sep s') as [|h t] eqn:Es; [now apply split_not_nil in Es|].
      rewrite join_cons, IHl. reflexivity.
    + rewrite (split_other _ _ E), join_push by apply split_not_nil. now rewrite IHbl.
Qed.

Lemma join_app (l1 l2 : list str) :
  l1 <> [] -> l2 <> [] ->
  join paragraph_sep (l1 ++ l2)
  = join paragraph_sep l1 ++ paragraph_sep ++ join paragraph_sep l2.
Proof.
  intros H1 H2. induction l1 as [|p l1 IH]; [congruence|].
  destruct l1 as [|q r].
  - destruct l2 as [|x l2]; [congruence|]. reflexivity.
  - change ((p :: q :: r) ++ l2) with (p :: q :: (r ++ l2)).
    rewrite !join_cons. change (q :: r ++ l2) with ((q :: r) ++ l2).
    rewrite IH by discriminate. now rewrite <- !app_assoc.
Qed.

Lemma trimmed_inv (p : str) :
  trimmed p = true -> p <> [] /\ nonblank p = true /\ lstrip p = p /\ rstrip p = p.
Proof.
  unfold trimmed. intros H. apply andb_true_iff in H as [Hne Hs].
  destruct (str_eqb_spec (strip p) p) as [Hstrip|]; [|discriminate].
  assert (Hnb : nonblank p = true) by now rewrite <- truthy_strip, Hstrip.
  assert (Hr : rstrip p = p).
  { destruct (rstrip_prefix p) as [suf Hsuf].
    pose proof (len_lstrip (rstrip p)) as Hl. fold (strip p) in Hl. rewrite Hstrip in Hl.
    assert (Hlen : len p = len (rstrip p) + len suf).
    { rewrite Hsuf at 1. unfold len. now rewrite length_app. }
    destruct suf; [now rewrite app_nil_r in Hsuf|]. simpl in Hlen. lia. }
  split; [now apply truthy_nonempty|]. split; [exact Hnb|]. split; [|exact Hr].
  unfold strip in Hstrip. now rewrite Hr in Hstrip.
Qed.

Lemma nonblank_join_trimmed (g : list str) :
  Forall (fun p => trimmed p = true) g -> g <> [] ->
  nonblank (join paragraph_sep g) = true.
Proof.
  intros H Hne. destruct g as [|p [|q r]]; [congruence| |];
    inversion H as [|x l Hp Hrest]; subst; apply trimmed_inv in Hp as (_ & Hnb & _).
  - exact Hnb.
  - now rewrite join_cons, nonblank_app, Hnb.
Qed.

Lemma rstrip_join_trimmed (g : list str) :
  Forall (fun p => trimmed p = true) g -> g <> [] ->
  rstrip (join paragraph_sep g) = join paragraph_sep g.
Proof.
  induction g as [|p g IH]; [congruence|]. intros H _.
  inversion H as [|x l Hp Hrest]; subst.
  destruct g as [|q r].
  - now apply trimmed_inv in Hp.
  - rewrite join_cons, app_assoc, rstrip_app
      by (apply nonblank_join_trimmed; [assumption|discriminate]).
    rewrite IH by (assumption || discriminate). now rewrite <- app_assoc.
Qed.

Lemma lstrip_join_trimmed (g : list str) :
  Forall (fun p => trimmed p = true) g ->
  lstrip (join paragraph_sep g) = join paragraph_sep g.
Proof.
  intros H. destruct g as [|p [|q r]]; [reflexivity| |];
    inversion H as [|x l Hp Hrest]; subst; apply trimmed_inv in Hp as (_ & Hnb & Hl & _).
  - exact Hl.
  - now rewrite join_cons, lstrip_app, Hl.
Qed.

(** A chunk of trimmed paragraphs is sent as the paragraphs joined. *)
Lemma flush_text_trimmed (g : list str) :
  Forall (fun p => trimmed p = true) g -> g <> [] ->
  flush_text (chunk_of g) = [join paragraph_sep g].
Proof.
  intros H Hne. unfold flush_text.
  assert (Hs : strip (chunk_of g) = join paragraph_sep g).
  { rewrite chunk_of_join, strip_sep by assumption. unfold strip.
    now rewrite rstrip_join_trimmed, lstrip_join_trimmed. }
  rewrite Hs. rewrite <- Hs at 1. rewrite truthy_strip, chunk_of_join by assumption.
  now rewrite nonblank_app, nonblank_join_trimmed.
Qed.

Lemma join_trimmed_not_nil (g : list str) :
  Forall (fun p => trimmed p = true) g -> g <> [] -> join paragraph_sep g <> [].
Proof.
  intros H Hne E. pose proof (nonblank_join_trimmed g H Hne) as Hnb.
  rewrite E in Hnb. discriminate.
Qed.

Lemma plan_loop_join (paragraphs g : list str) :
  Forall (fun p => trimmed p = true) (g ++ paragraphs) ->
  join paragraph_sep (fst (plan_loop paragraphs (chunk_of g))
                      ++ flush_text (snd (plan_loop paragraphs (chunk_of g))))
  = join paragraph_sep (g ++ paragraphs).
Proof.
  revert g. induction paragraphs as [|para rest IH]; intros g H.
  - cbn [plan_loop fst snd app]. rewrite app_nil_r in *.
    destruct g as [|p g]; [reflexivity|].
    now rewrite flush_text_trimmed by (assumption || discriminate).
  - cbn [plan_loop]. destruct (len (chunk_of g) + len para + 2 <=? max_chunk_size).
    + rewrite <- chunk_of_snoc, IH by now rewrite <- app_assoc.
      now rewrite <- app_assoc.
    + pose proof H as Hall. apply Forall_app in H as [Hg Hrest].
      specialize (IH [para] Hrest).
      replace (chunk_of [para]) with (para ++ paragraph_sep) in IH
        by (unfold chunk_of; simpl; now rewrite app_nil_r).
      destruct (plan_loop rest (para ++ paragraph_sep)) as [chunks final].
      cbn [fst snd] in *. destruct g as [|p g].
      * exact IH.
      * rewrite flush_text_trimmed by (assumption || discriminate).
        rewrite <- app_assoc.
        rewrite (join_app [join paragraph_sep (p :: g)] (chunks ++ flush_text final)),
          (join_app (p :: g) (para :: rest)); try discriminate.
        -- now rewrite IH.
        -- intros E. rewrite E in IH. symmetry in IH.
           now apply (join_trimmed_not_nil ([para] ++ rest)) in IH.
Qed.

Lemma ask_all_echo (code : str) (history : list Request) (texts : list str) :
  ask_all echo code history texts
  = (texts, map (fun text => {| req_target := code; req_text := text |}) texts, None).
Proof.
  revert history. induction texts as [|text rest IH]; intros history; [reflexivity|].
  cbn [ask_all]. unfold echo at 1, mock. cbn [req_text]. rewrite map_id.
  fold echo. now rewrite IH.
Qed.

(** X5. A lossless round trip: with a provider that echoes its input, a
    text comes back unchanged, however long, when none of its paragraphs is
    empty or has whitespace at its ends (a text of at most 4500 characters
    comes back unchanged in any case): chunking and rejoining lose
    nothing. *)
Theorem echo_round_trip {L : LanguageEnum} (content : str) (target : SupportedLanguage)
    (w : World) :
  (max_chunk_size < len content ->
   forallb trimmed (split paragraph_sep content) = true) ->
  fst (_translate_with_google echo content target w) = Return content.
Proof.
  intros H. rewrite follows_plan.
  destruct (language_eqb target ENGLISH); [reflexivity|].
  rewrite ask_all_echo. cbn [fst]. f_equal. unfold planned_chunks.
  destruct (Nat.leb_spec (len content) max_chunk_size) as [Hshort|Hlong]; [reflexivity|].
  specialize (H Hlong). rewrite forallb_forall in H.
  pose proof (plan_loop_join (split paragraph_sep content) []) as Hj.
  change (chunk_of []) with (@nil ascii) in Hj. cbn [app] in Hj.
  destruct (plan_loop (split paragraph_sep content) []) as [chunks final].
  cbn [fst snd] in Hj. rewrite Hj; [apply join_split|].
  now apply Forall_forall.
Qed.

(** ** Hits, English and neighbours *)

Section Orchestration.
Context {L : LanguageEnum}.
Variable provider : Provider.

Lemma english_identity (content : str) (w : World) :
  _translate_with_google provider content ENGLISH w = (Return content, w).
Proof. rewrite follows_plan. now rewrite language_eqb_refl. Qed.

(** X8. A cache hit costs nothing: when the key holds an entry whose stored
    fingerprint is that of the text, [translate_chapter] answers with the
    stored translation, [cached = true] and the [updated_at] of the entry,
    and leaves the whole state, with the list of provider requests, as it
    was. *)
Theorem cache_hit_is_served (chapter_id content : str) (language : SupportedLanguage)
    (now : datetime) (lat : Z) (w : World) (c : ChapterTranslation) :
  Dict.get (_translation_cache w) (_get_cache_key chapter_id language) = Some c ->
  original_content_hash c = _compute_content_hash content ->
  translate_chapter provider chapter_id content language now lat w
  = (Return ({| tr_chapter_id := chapter_id;
                tr_language := language;
                translated_content := ct_translated_content c;
                cached := true;
                translated_at := ct_updated_at c |}, lat), w).
Proof.
  intros Hget Hhash. apply translate_chapter_hit.
  unfold fresh_entry. now rewrite Hget, Hhash, str_eqb_refl.
Qed.

Lemma cache_key_injective (a b : str) (language : SupportedLanguage) :
  _get_cache_key a language = _get_cache_key b language -> a = b.
Proof. unfold _get_cache_key. apply app_inv_tail. Qed.

(** X10. A call of [translate_chapter] touches one key only: whether it
    returns or raises, the preferences are as before and so is the entry
    of every other cache key, in particular that of every other chapter in
    the same language. *)
Theorem translate_chapter_frame (chapter_id content : str) (language : SupportedLanguage)
    (now : datetime) (lat : Z) (w : World) :
  let w' := snd (translate_chapter provider chapter_id content language now lat w) in
  _user_preferences w' = _user_preferences w
  /\ (forall k, k <> _get_cache_key chapter_id language ->
        Dict.get (_translation_cache w') k = Dict.get (_translation_cache w) k)
  /\ (forall other, other <> chapter_id ->
        Dict.get (_translation_cache w') (_get_cache_key other language)
        = Dict.get (_translation_cache w) (_get_cache_key other language)).
Proof.
  intros w'.
  assert (H : _user_preferences w' = _user_preferences w
              /\ forall k, k <> _get_cache_key chapter_id language ->
                   Dict.get (_translation_cache w') k = Dict.get (_translation_cache w) k).
  { unfold w'. destruct (fresh_entry w chapter_id content language) as [c|] eqn:E.
    - rewrite (translate_chapter_hit _ _ _ _ _ _ _ _ E). auto.
    - rewrite (translate_chapter_miss _ _ _ _ _ _ _ E).
      destruct (_translate_with_google _ _ _ _) as [[t|e] w1] eqn:Et;
        destruct (translate_with_google_frame _ _ _ _ _ _ Et) as [(Hc & Hp & _) _];
        cbn [snd]; simpl in Hc, Hp; split; auto; intros k Hk.
      + cbn [_translation_cache with_cache]. rewrite get_set_other, Hc by assumption.
        now apply get_del_other.
      + rewrite Hc. now apply get_del_other.
  }
  destruct H as [Hp Hk]. split; [exact Hp|]. split; [exact Hk|].
  intros other Hother. apply Hk. intros E. now apply cache_key_injective in E.
Qed.

(** X15. A lookup settles in one call: repeating a lookup on the state it
    left gives the same answer and the same state (a stale entry is
    evicted once, and then the key is absent). *)
Theorem lookup_twice (chapter_id : str) (language : SupportedLanguage)
    (content_hash : option str) (w : World) :
  get_cached_translation chapter_id language content_hash
    (snd (get_cached_translation chapter_id language content_hash w))
  = get_cached_translation chapter_id language content_hash w.
Proof.
  unfold get_cached_translation.
  destruct (Dict.get (_translation_cache w) (_get_cache_key chapter_id language))
    as [c|] eqn:E.
  - destruct (match content_hash with
              | Some h => truthy h && negb (str_eqb (original_content_hash c) h)
              | None => false
              end) eqn:Es; cbn [snd].
    + cbn [_translation_cache with_cache]. now rewrite get_del_same.
    + now rewrite E, Es.
  - cbn [snd]. now rewrite E.
Qed.

End Orchestration.

(** ** Dictionaries without duplicate keys *)

Section DictInvariants.
Variable V : Type.
Implicit Types (d : Dict.dict V) (k : str) (v : V).

Lemma in_set d k v k' v' :
  In (k', v') (Dict.set d k v) -> (k' = k /\ v' = v) \/ In (k', v') d.
Proof.
  induction d as [|[k0 v0] d IH]; simpl.
  - intros [H|[]]. inversion H; auto.
  - destruct (str_eqb_spec k0 k) as [->|Hk]; simpl.
    + intros [H|H]; [inversion H; auto|auto].
    + intros [H|H]; [auto|]. destruct (IH H); auto.
Qed.

Lemma keys_set d k v k' :
  In k' (Dict.keys (Dict.set d k v)) <-> k' = k \/ In k' (Dict.keys d).
Proof.
  induction d as [|[k0 v0] d IH]; simpl.
  - split; intros [H|H]; auto.
  - destruct (str_eqb_spec k0 k) as [->|Hk]; simpl.
    + split; [intros [H|H]; auto|intros [H|[H|H]]; auto].
    + rewrite IH. tauto.
Qed.

Lemma nodup_set d k v : NoDup (Dict.keys d) -> NoDup (Dict.keys (Dict.set d k v)).
Proof.
  induction d as [|[k0 v0] d IH]; simpl; intros H.
  - constructor; [tauto|constructor].
  - inversion H as [|x l Hnotin Hrest]; subst.
    destruct (str_eqb_spec k0 k) as [->|Hk]; simpl.
    + now constructor.
    + constructor; [|auto]. rewrite keys_set. intros [E|E]; [congruence|contradiction].
Qed.

Lemma in_del d k k' v' : In (k', v') (Dict.del d k) -> In (k', v') d /\ k' <> k.
Proof.
  unfold Dict.del. rewrite filter_In. intros [H Hk]. split; [exact H|].
  simpl in Hk. destruct (str_eqb_spec k' k); [discriminate|assumption].
Qed.

Lemma keys_del d k k' : In k' (Dict.keys (Dict.del d k)) -> In k' (Dict.keys d).
Proof.
  unfold Dict.keys. rewrite !in_map_iff. intros ([k0 v0] & E & H).
  apply in_del in H as [H _]. now exists (k0, v0).
Qed.

Lemma nodup_del d k : NoDup (Dict.keys d) -> NoDup (Dict.keys (Dict.del d k)).
Proof.
  induction d as [|[k0 v0] d IH]; simpl; intros H; [constructor|].
  inversion H as [|x l Hnotin Hrest]; subst.
  destruct (str_eqb k0 k); simpl; [auto|].
  constructor; [|auto]. intros E. apply Hnotin. now apply keys_del in E.
Qed.

Lemma get_none d k : Dict.get d k = None <-> ~ In k (Dict.keys d).
Proof.
  induction d as [|[k0 v0] d IH]; simpl; [tauto|].
  destruct (str_eqb_spec k0 k) as [->|Hk].
  - split; [discriminate|tauto].
  - rewrite IH. tauto.
Qed.

Lemma size_set_absent d k v :
  Dict.get d k = None -> Dict.size (Dict.set d k v) = S (Dict.size d).
Proof.
  unfold Dict.size. induction d as [|[k0 v0] d IH]; simpl; [reflexivity|].
  destruct (str_eqb k0 k); [discriminate|]. intros H. simpl. f_equal. now apply IH.
Qed.

Lemma size_del_present d k v :
  NoDup (Dict.keys d) -> Dict.get d k = Some v -> S (Dict.size (Dict.del d k)) = Dict.size d.
Proof.
  unfold Dict.size. induction d as [|[k0 v0] d IH]; simpl; [discriminate|].
  intros Hnd Hget. inversion Hnd as [|x l Hnotin Hrest]; subst.
  destruct (str_eqb_spec k0 k) as [->|Hk]; simpl.
  - fold (Dict.del d k). rewrite del_absent; [reflexivity|]. now apply get_none.
  - fold (Dict.del d k). f_equal. now apply IH.
Qed.

End DictInvariants.

(** ** Reachable states *)

Section Reachable.
Context {L : LanguageEnum}.
Variable provider : Provider.

(** What a call of [translate_chapter] leaves behind. *)
Lemma translate_chapter_state (chapter_id content : str) (language : SupportedLanguage)
    (now : datetime) (lat : Z) (w : World) :
  let res := translate_chapter provider chapter_id content language now lat w in
  _user_preferences (snd res) = _user_preferences w
  /\ match fst res with
     | Raise _ =>
         _translation_cache (snd res)
         = Dict.del (_translation_cache w) (_get_cache_key chapter_id language)
     | Return r =>
         if cached (fst r) then snd res = w
         else exists t,
             _translation_cache (snd res)
             = Dict.set (Dict.del (_translation_cache w) (_get_cache_key chapter_id language))
                 (_get_cache_key chapter_id language)
                 (stored_entry chapter_id content language t now)
     end.
Proof.
  intros res. unfold res.
  destruct (fresh_entry w chapter_id content language) as [c|] eqn:E.
  - rewrite (translate_chapter_hit _ _ _ _ _ _ _ _ E). now split.
  - rewrite (translate_chapter_miss _ _ _ _ _ _ _ E).
    destruct (_translate_with_google _ _ _ _) as [[t|e] w1] eqn:Et;
      destruct (translate_with_google_frame _ _ _ _ _ _ Et) as [(Hc & Hp & _) _];
      simpl in Hc, Hp; cbn [fst snd cached fresh_response]; split; auto.
    exists t. cbn [_translation_cache with_cache]. now rewrite Hc.
Qed.

Lemma consistent_init : consistent init.
Proof.
  split; [apply NoDup_nil|]. split; [apply NoDup_nil|].
  split; intros k c [].
Qed.

Lemma consistent_after_call (c : Call) (w : World) :
  consistent w -> consistent (after_call provider c w).
Proof.
  intros Hw. pose proof Hw as (Hnc & Hnp & Hc & Hp).
  destruct c as [ch content lang now lat|ch lang h|s ch lang now|s ch|].
  - cbn [after_call].
    destruct (translate_chapter_state ch content lang now lat w) as [Hprefs Hcache].
    destruct (translate_chapter provider ch content lang now lat w) as [[r|e] w'].
    + cbn [fst snd] in *. destruct (cached (fst r)).
      * now subst w'.
      * destruct Hcache as [t Hcache]. unfold consistent. rewrite Hprefs, Hcache.
        split; [now apply nodup_set, nodup_del|]. split; [assumption|].
        split; [|assumption]. intros k c Hin.
        apply in_set in Hin as [[-> ->]|Hin].
        -- cbn [stored_entry ct_chapter_id ct_language created_at ct_updated_at
                original_content_hash].
           split; [reflexivity|]. split; [reflexivity|]. apply hexdigest_length.
        -- apply in_del in Hin as [Hin _]. now apply Hc.
    + cbn [fst snd] in *. unfold consistent. rewrite Hprefs, Hcache.
      split; [now apply nodup_del|]. split; [assumption|]. split; [|assumption].
      intros k c Hin. apply in_del in Hin as [Hin _]. now apply Hc.
  - cbn [after_call]. unfold get_cached_translation.
    destruct (Dict.get _ _) as [c|]; [|exact Hw].
    destruct (match h with Some _ => _ | None => _ end); [|exact Hw].
    cbn [snd]. unfold consistent. cbn [_translation_cache _user_preferences with_cache].
    split; [now apply nodup_del|]. split; [assumption|]. split; [|assumption].
    intros k c' Hin. apply in_del in Hin as [Hin _]. now apply Hc.
  - cbn [after_call set_user_preference snd]. unfold consistent.
    cbn [_translation_cache _user_preferences with_preferences].
    split; [assumption|]. split; [now apply nodup_set|]. split; [assumption|].
    intros k p Hin. apply in_set in Hin as [[-> ->]|Hin]; [reflexivity|now apply Hp].
  - exact Hw.
  - exact Hw.
Qed.

Lemma reachable_consistent (calls : list Call) (w : World) :
  consistent w -> consistent (after_calls provider calls w).
Proof.
  revert w. induction calls as [|c rest IH]; intros w H; [exact H|].
  cbn [after_calls]. apply IH. now apply consistent_after_call.
Qed.

(** X11. In every state that calls of the service reach from a new
    service, whatever the provider answered: no dictionary holds a key
    twice, every cached entry sits under the key of its own chapter_id and
    language, has [created_at] equal to [updated_at] and a fingerprint of
    32 characters, and every preference sits under the key of its own
    session_id and chapter_id. *)
Theorem reachable_states_are_consistent (calls : list Call) :
  consistent (after_calls provider calls init).
Proof. apply reachable_consistent, consistent_init. Qed.

(** X12. The number of cached translations counts keys, not calls: in a
    reachable state, a call of [translate_chapter] that returns an
    uncached response leaves the count as it was when the key held a
    (stale) entry, and raises it by one when the key was absent. *)
Theorem refresh_keeps_the_count (calls : list Call) (chapter_id content : str)
    (language : SupportedLanguage) (now : datetime) (lat : Z)
    (r : TranslationResponse * Z) (w' : World) :
  translate_chapter provider chapter_id content language now lat
    (after_calls provider calls init) = (Return r, w') ->
  cached (fst r) = false ->
  Dict.size (_translation_cache w')
  = match Dict.get (_translation_cache (after_calls provider calls init))
            (_get_cache_key chapter_id language) with
    | Some _ => Dict.size (_translation_cache (after_calls provider calls init))
    | None => S (Dict.size (_translation_cache (after_calls provider calls init)))
    end.
Proof.
  intros Hrun Hc.
  destruct (reachable_consistent calls init consistent_init) as (Hnd & _).
  set (w := after_calls provider calls init) in *.
  destruct (translate_chapter_state chapter_id content language now lat w) as [_ Hcache].
  rewrite Hrun in Hcache. cbn [fst snd] in Hcache. rewrite Hc in Hcache.
  destruct Hcache as [t ->].
  rewrite size_set_absent by apply get_del_same.
  destruct (Dict.get (_translation_cache w) (_get_cache_key chapter_id language))
    as [c|] eqn:E.
  - now apply size_del_present with (v := c).
  - now rewrite del_absent.
Qed.

Lemma pref_keys_after (calls : list Call) (w : World) (k : str) :
  In k (Dict.keys (_user_preferences (after_calls provider calls w)))
  <-> In k (Dict.keys (_user_preferences w)) \/ In k (pref_keys_of calls).
Proof.
  revert w. induction calls as [|c rest IH]; intros w.
  - simpl. tauto.
  - cbn [after_calls]. rewrite IH. unfold pref_keys_of. cbn [flat_map].
    fold (pref_keys_of rest). rewrite in_app_iff.
    destruct c as [ch content lang now lat|ch lang h|s ch lang now|s ch|]; cbn [after_call].
    + destruct (translate_chapter_state ch content lang now lat w) as [-> _]. simpl. tauto.
    + assert (E : _user_preferences (snd (get_cached_translation ch lang h w))
                  = _user_preferences w).
      { unfold get_cached_translation. destruct (Dict.get _ _); [|reflexivity].
        now destruct (match h with Some _ => _ | None => _ end). }
      rewrite E. simpl. tauto.
    + cbn [set_user_preference snd _user_preferences with_preferences].
      rewrite keys_set. unfold pref_key. simpl. intuition.
    + simpl. tauto.
    + simpl. tauto.
Qed.

(** X14. The preference counter of [get_cache_stats] counts distinct keys:
    after any calls on a new service it is the number of distinct composed
    keys session_id:chapter_id that [set_user_preference] was called with,
    whatever other calls were made in between; the call changes nothing. *)
Theorem stats_count_preference_keys (calls : list Call) :
  exists stats,
    get_cache_stats (after_calls provider calls init)
    = (Return stats, after_calls provider calls init)
    /\ user_preferences stats = List.length (nodup str_eq_dec (pref_keys_of calls)).
Proof.
  eexists. split; [reflexivity|]. cbn [user_preferences].
  destruct (reachable_consistent calls init consistent_init) as (_ & Hnd & _).
  set (w := after_calls provider calls init) in *.
  unfold Dict.size. rewrite <- (length_map fst). fold (Dict.keys (_user_preferences w)).
  apply Nat.le_antisymm; apply NoDup_incl_length;
    try assumption; try apply NoDup_nodup; intros k Hk.
  - apply nodup_In. apply (pref_keys_after calls init k) in Hk as [[]|Hk]. exact Hk.
  - apply nodup_In in Hk. apply (pref_keys_after calls init k). now right.
Qed.

End Reachable.
(** ** When the provider fails *)

Section ProviderFailure.
Context {L : LanguageEnum}.
Variable provider : Provider.

Lemma answered_middle (history pre post : list Request) (r : Request) (ts : list str) :
  answered provider history (pre ++ r :: post) ts ->
  exists t, provider (history ++ pre) r = Translated t.
Proof.
  revert history ts. induction pre as [|x pre IH]; intros history ts H.
  - destruct ts as [|t ts]; [contradiction|]. destruct H as [H _].
    exists t. now rewrite app_nil_r.
  - destruct ts as [|t ts]; [contradiction|]. destruct H as [_ H].
    destruct (IH _ _ H) as [t' Ht']. exists t'. now rewrite <- app_assoc in Ht'.
Qed.

Lemma last_request (pre post pre' : list Request) (r r' : Request) :
  pre ++ r :: post = pre' ++ [r'] ->
  (post = [] /\ pre = pre' /\ r = r') \/ exists post', pre' = pre ++ r :: post'.
Proof.
  intros H. destruct post as [|x post] using rev_ind.
  - left. apply app_inj_tail in H as [-> ->]. auto.
  - right. exists post. clear IHpost.
    change (pre ++ r :: post ++ [x]) with (pre ++ (r :: post) ++ [x]) in H.
    rewrite app_assoc in H. now apply app_inj_tail in H as [<- _].
Qed.

(** A request that the provider fails is the last one of its call, and the
    call raises with the reason of that failure, after the lookup. *)
Lemma provider_failure_raises (chapter_id content : str) (language : SupportedLanguage)
    (now : datetime) (lat : Z) (w : World) (pre post : list Request) (r : Request)
    (reason : str) :
  requests (snd (translate_chapter provider chapter_id content language now lat w))
    = requests w ++ pre ++ r :: post ->
  provider (requests w ++ pre) r = Failed reason ->
  post = []
  /\ translate_chapter provider chapter_id content language now lat w
     = (Raise (RuntimeError (py "Translation failed: " ++ reason)),
        with_requests (evicted w chapter_id language) (pre ++ [r])).
Proof.
  intros Hlog Hfail.
  assert (Hnone : forall l : list Request, l = l ++ pre ++ r :: post -> False).
  { intros l E. rewrite <- (app_nil_r l) in E at 1. apply app_inv_head in E.
    destruct pre; discriminate. }
  destruct (fresh_entry w chapter_id content language) as [c|] eqn:E.
  - rewrite (translate_chapter_hit _ _ _ _ _ _ _ _ E) in Hlog. cbn [snd] in Hlog.
    now apply Hnone in Hlog.
  - rewrite (translate_chapter_miss _ _ _ _ _ _ _ E) in *. rewrite follows_plan in *.
    destruct (language_eqb language ENGLISH).
    { cbn [snd requests with_cache evicted] in Hlog. now apply Hnone in Hlog. }
    change (requests (evicted w chapter_id language)) with (requests w) in *.
    destruct (ask_all provider (lang_code_of language) (requests w) (planned_chunks content))
      as [[ts sent] failure] eqn:Ea.
    pose proof (ask_all_answered _ _ _ _ _ _ _ Ea) as Ha.
    assert (Hsent : sent = pre ++ r :: post).
    { destruct failure; cbn [snd requests with_cache with_requests evicted] in Hlog;
        now apply app_inv_head in Hlog. }
    destruct failure as [reason'|].
    + destruct Ha as (pre' & r' & Hs & Hpre & Hfail').
      rewrite Hsent in Hs. apply last_request in Hs as [(-> & -> & ->)|[post' ->]].
      * rewrite Hfail in Hfail'. inversion Hfail'; subst. split; reflexivity.
      * apply answered_middle in Hpre as [t Ht]. congruence.
    + rewrite Hsent in Ha. apply answered_middle in Ha as [t Ht]. congruence.
Qed.

(** C5 (amended). When a provider call fails, that is when a request sent
    during a call of [translate_chapter] is failed by the provider: no
    request follows it, the call raises [TranslationFailed] with the reason
    of the failure, and nothing is stored: the cache after the call is the
    cache before it without the entry of this key (a stale entry has been
    evicted by the lookup), so it is the cache before it when the key held
    no entry; the preferences are untouched. *)
Theorem provider_failure_stores_nothing (chapter_id content : str)
    (language : SupportedLanguage) (now : datetime) (lat : Z) (w : World)
    (pre post : list Request) (r : Request) (reason : str) :
  requests (snd (translate_chapter provider chapter_id content language now lat w))
    = requests w ++ pre ++ r :: post ->
  provider (requests w ++ pre) r = Failed reason ->
  exists e w',
    translate_chapter provider chapter_id content language now lat w = (Raise e, w')
    /\ TranslationFailed e
    /\ e = RuntimeError (py "Translation failed: " ++ reason)
    /\ post = []
    /\ _translation_cache w'
       = Dict.del (_translation_cache w) (_get_cache_key chapter_id language)
    /\ (Dict.get (_translation_cache w) (_get_cache_key chapter_id language) = None ->
        _translation_cache w' = _translation_cache w)
    /\ _user_preferences w' = _user_preferences w.
Proof.
  intros Hlog Hfail.
  destruct (provider_failure_raises _ _ _ _ _ _ _ _ _ _ Hlog Hfail) as [Hpost Hrun].
  eexists _, _. split; [exact Hrun|]. split; [now exists reason|].
  split; [reflexivity|]. split; [exact Hpost|]. split; [reflexivity|].
  split; [|reflexivity]. intros Habs. cbn [_translation_cache with_requests evicted with_cache].
  now apply del_absent.
Qed.

(** X9. A translation of a chapter to English never calls the provider:
    whether or not the call returns, the list of requests and the
    preferences are as before, and a response that is returned and not
    served from the cache carries the text itself. *)
Theorem english_chapter_calls_no_provider (chapter_id content : str) (now : datetime)
    (lat : Z) (w : World) :
  let res := translate_chapter provider chapter_id content ENGLISH now lat w in
  requests (snd res) = requests w
  /\ _user_preferences (snd res) = _user_preferences w
  /\ forall r, fst res = Return r -> cached (fst r) = false ->
       translated_content (fst r) = content.
Proof.
  intros res. unfold res.
  destruct (fresh_entry w chapter_id content ENGLISH) as [c|] eqn:E.
  - rewrite (translate_chapter_hit _ _ _ _ _ _ _ _ E). cbn [fst snd].
    split; [reflexivity|]. split; [reflexivity|].
    intros r Hr. inversion Hr; subst. discriminate.
  - rewrite (translate_chapter_miss _ _ _ _ _ _ _ E), follows_plan, language_eqb_refl.
    cbn [fst snd]. split; [reflexivity|]. split; [reflexivity|].
    intros r Hr _. inversion Hr; subst. reflexivity.
Qed.

(** X16. A provider failure leaves nothing to serve for its key: after a
    call of [translate_chapter] during which the provider failed a
    request, the key of that chapter and language holds no entry, so the
    next call for them that returns, with whatever text (even one that was
    cached before the failure), is not served from the cache. *)
Theorem nothing_served_after_provider_failure (chapter_id content content' : str)
    (language : SupportedLanguage) (now now' : datetime) (lat lat' : Z)
    (w w2 : World) (pre post : list Request) (r : Request) (reason : str)
    (r2 : TranslationResponse * Z) :
  requests (snd (translate_chapter provider chapter_id content language now lat w))
    = requests w ++ pre ++ r :: post ->
  provider (requests w ++ pre) r = Failed reason ->
  translate_chapter provider chapter_id content' language now' lat'
    (snd (translate_chapter provider chapter_id content language now lat w))
  = (Return r2, w2) ->
  Dict.get (_translation_cache
              (snd (translate_chapter provider chapter_id content language now lat w)))
           (_get_cache_key chapter_id language) = None
  /\ cached (fst r2) = false.
Proof.
  intros Hlog Hfail H2.
  destruct (provider_failure_raises _ _ _ _ _ _ _ _ _ _ Hlog Hfail) as [_ Hrun].
  rewrite Hrun in *. cbn [snd] in *.
  set (w1 := with_requests (evicted w chapter_id language) (pre ++ [r])) in *.
  assert (Habs : Dict.get (_translation_cache w1) (_get_cache_key chapter_id language) = None)
    by apply get_del_same.
  split; [exact Habs|].
  assert (Hmiss : fresh_entry w1 chapter_id content' language = None)
    by (unfold fresh_entry; now rewrite Habs).
  rewrite (translate_chapter_miss _ _ _ _ _ _ _ Hmiss) in H2.
  destruct (_translate_with_google _ _ _ _) as [[t|e'] w']; inversion H2. reflexivity.
Qed.

End ProviderFailure.

(** ** The properties on concrete runs *)

Lemma translation_stops_at_first_failure_witness :
  exists e w' sent ts pre r reason,
    _translate_with_google flaky two_halves URDU init = (Raise e, w')
    /\ requests w' = requests init ++ sent
    /\ sent = pre ++ [r]
    /\ answered flaky (requests init) pre ts
    /\ flaky (requests init ++ pre) r = Failed reason
    /\ e = RuntimeError (py "Translation failed: " ++ reason).
Proof.
  assert (Hfst : fst (_translate_with_google flaky two_halves URDU init)
                 = Raise (RuntimeError (py "Translation failed: 429")))
    by (vm_compute; reflexivity).
  destruct (_translate_with_google flaky two_halves URDU init) as [o w'] eqn:H.
  cbn [fst] in Hfst. subst o.
  assert (Hurdu : @URDU TwoLanguages.enum <> ENGLISH) by discriminate.
  destruct (translation_stops_at_first_failure flaky two_halves URDU init w' _
              H Hurdu) as (sent & ts & Hsent & pre & r & reason & Hs & Ha & Hf & He).
  exists (RuntimeError (py "Translation failed: 429")), w', sent, ts, pre, r, reason.
  exact (conj eq_refl (conj Hsent (conj Hs (conj Ha (conj Hf He))))).
Defined.

Lemma requests_within_limit_witness :
  exists sent,
    requests (snd (_translate_with_google echo two_halves URDU init)) = requests init ++ sent
    /\ Forall (fun r => len (req_text r) <= max_chunk_size) sent.
Proof.
  apply (requests_within_limit echo two_halves URDU init). vm_compute. reflexivity.
Defined.

Lemma echo_round_trip_witness :
  fst (_translate_with_google echo two_halves URDU init) = Return two_halves.
Proof.
  apply (echo_round_trip two_halves URDU init). intros _. vm_compute. reflexivity.
Defined.

Lemma cache_hit_is_served_witness :
  translate_chapter down (py "ch1") (py "Hello") URDU 200%Z 7%Z hello_world
  = (Return ({| tr_chapter_id := py "ch1";
                tr_language := URDU;
                translated_content := py "salam";
                cached := true;
                translated_at := 100%Z |}, 7%Z), hello_world).
Proof.
  assert (Hget : Dict.get (_translation_cache hello_world) (_get_cache_key (py "ch1") URDU)
                 = Some hello_entry) by (vm_compute; reflexivity).
  assert (Hhash : original_content_hash hello_entry = _compute_content_hash (py "Hello"))
    by (vm_compute; reflexivity).
  rewrite (cache_hit_is_served down (py "ch1") (py "Hello") URDU 200%Z 7%Z hello_world
             hello_entry Hget Hhash).
  reflexivity.
Defined.

Lemma refresh_keeps_the_count_witness :
  exists r w',
    translate_chapter echo (py "ch1") (py "World") URDU 200%Z 7%Z
      (after_calls echo [CallTranslate (py "ch1") (py "Hello") URDU 100%Z 5%Z] init)
    = (Return r, w')
    /\ Dict.size (_translation_cache w') = 1.
Proof.
  destruct (translate_chapter echo (py "ch1") (py "World") URDU 200%Z 7%Z
              (after_calls echo [CallTranslate (py "ch1") (py "Hello") URDU 100%Z 5%Z] init))
    as [[r|e] w'] eqn:H; [|vm_compute in H; discriminate H].
  assert (Hc : cached (fst r) = false).
  { vm_compute in H. inversion H. reflexivity. }
  exists r, w'. split; [reflexivity|].
  rewrite (refresh_keeps_the_count echo
             [CallTranslate (py "ch1") (py "Hello") URDU 100%Z 5%Z]
             (py "ch1") (py "World") URDU 200%Z 7%Z r w' H Hc).
  vm_compute. reflexivity.
Defined.


Lemma provider_failure_stores_nothing_witness :
  exists e w',
    translate_chapter down (py "ch2") (py "new text") URDU 200%Z 3%Z stale_world
      = (Raise e, w')
    /\ TranslationFailed e
    /\ _translation_cache w' = _translation_cache stale_world.
Proof.
  assert (Hlog : requests (snd (translate_chapter down (py "ch2") (py "new text") URDU
                                  200%Z 3%Z stale_world))
                 = requests stale_world ++ []
                   ++ {| req_target := py "ur"; req_text := py "new text" |} :: [])
    by (vm_compute; reflexivity).
  destruct (provider_failure_stores_nothing down (py "ch2") (py "new text") URDU
              200%Z 3%Z stale_world [] []
              {| req_target := py "ur"; req_text := py "new text" |} (py "503")
              Hlog eq_refl)
    as (e & w' & Hrun & Hfailed & _ & _ & _ & Hsame & _).
  exists e, w'. split; [exact Hrun|]. split; [exact Hfailed|].
  apply Hsame. vm_compute. reflexivity.
Defined.

Lemma nothing_served_after_provider_failure_witness :
  exists r2 w2,
    translate_chapter late (py "ch1") (py "Hello") URDU 300%Z 9%Z
      (snd (translate_chapter late (py "ch1") (py "World") URDU 200%Z 7%Z hello_world))
    = (Return r2, w2)
    /\ cached (fst r2) = false.
Proof.
  assert (Hlog : requests (snd (translate_chapter late (py "ch1") (py "World") URDU
                                  200%Z 7%Z hello_world))
                 = requests hello_world ++ []
                   ++ {| req_target := py "ur"; req_text := py "World" |} :: [])
    by (vm_compute; reflexivity).
  assert (H2 : exists r2 w2,
             translate_chapter late (py "ch1") (py "Hello") URDU 300%Z 9%Z
               (snd (translate_chapter late (py "ch1") (py "World") URDU 200%Z 7%Z hello_world))
             = (Return r2, w2)) by (eexists _, _; vm_compute; reflexivity).
  destruct H2 as (r2 & w2 & H2).
  destruct (nothing_served_after_provider_failure late (py "ch1") (py "World") (py "Hello")
              URDU 200%Z 300%Z 7%Z 9%Z hello_world w2 [] []
              {| req_target := py "ur"; req_text := py "World" |} (py "503") r2
              Hlog eq_refl H2) as [_ Hc].
  exists r2, w2. exact (conj H2 Hc).
Defined.
